(** * calculator.py: a monadic parser with an arithmetic grammar

    Shallow embedding of [src/calculator.py].  Python values that the
    program manipulates are modelled as follows:

    - [str] as [string]; a character is an [ascii], read as a code point
      below 256;
    - [int] as [Z], [float] as an IEEE-754 binary64 value ([spec_float]
      with precision 53 and maximal exponent 1024);
    - an exception as a constructor of [exn]; a call that can raise
      returns an [outcome];
    - the call stack is unbounded; recursion that Python leaves
      unbounded takes a [fuel] argument and answers [Diverge] when it is
      used up. *)

From Stdlib Require Import ZArith List String Ascii Bool Lia.
From Stdlib Require Import Floats.SpecFloat.
From Stdlib Require Import DecimalString.
Import ListNotations.

Local Open Scope string_scope.
Local Open Scope Z_scope.

(** ** Python strings *)

(** [str.isspace] on one character (code points below 256). *)
Definition py_isspace (a : ascii) : bool :=
  let n := Z.of_nat (nat_of_ascii a) in
  ((9 <=? n) && (n <=? 13)) || ((28 <=? n) && (n <=? 32))
  || (n =? 133) || (n =? 160).

Fixpoint py_lstrip (x : string) : string :=
  match x with
  | EmptyString => EmptyString
  | String a x' => if py_isspace a then py_lstrip x' else x
  end.

Fixpoint py_rstrip (x : string) : string :=
  match x with
  | EmptyString => EmptyString
  | String a x' =>
      match py_rstrip x' with
      | EmptyString => if py_isspace a then EmptyString else String a EmptyString
      | r => String a r
      end
  end.

(** [x.strip()] *)
Definition py_strip (x : string) : string := py_rstrip (py_lstrip x).

(** [len(x)] *)
Definition py_len (x : string) : Z := Z.of_nat (String.length x).

(** [x[i]]; [None] stands for [IndexError].  A negative index counts
    from the end. *)
Definition py_getitem (x : string) (i : Z) : option ascii :=
  if (0 <=? i) && (i <? py_len x) then String.get (Z.to_nat i) x
  else if (- py_len x <=? i) && (i <? 0) then String.get (Z.to_nat (py_len x + i)) x
  else None.

(** [x[i:]] *)
Definition py_slice_from (x : string) (i : Z) : string :=
  let start := if i <? 0 then Z.max (py_len x + i) 0 else Z.min i (py_len x) in
  substring (Z.to_nat start) (Z.to_nat (py_len x - start)) x.

(** [ch in x] for a one-character [ch] *)
Fixpoint py_in (ch : ascii) (x : string) : bool :=
  match x with
  | EmptyString => false
  | String a x' => Ascii.eqb ch a || py_in ch x'
  end.

(** ["".join(l)] for a list of one-character strings *)
Definition py_join (l : list ascii) : string := string_of_list_ascii l.

(** ** Python numbers *)

Definition prec : Z := 53.
Definition emax : Z := 1024.

(** What [eval] can return on the strings [digits] hands to it, and what
    the operator lambdas compute with. *)
Inductive pyval : Type :=
| VInt (z : Z)
| VFloat (f : spec_float)
| VEllipsis.

(** ** The cursor *)

Module Context.
Record t : Type := mk { s : string; pos : Z }.
End Context.

Inductive exn : Type :=
| ParsingError (msg : string) (ctx : Context.t)
| IndexError
| SyntaxError
| TypeError
| ZeroDivisionError
| OverflowError.

Definition is_ParsingError (e : exn) : bool :=
  match e with ParsingError _ _ => true | _ => false end.

(** The nearest binary64 value to [n / d] for [0 < n] and [0 < d], ties to
    even; an infinity when it is out of range. *)
Definition round_ratio (sign : bool) (n d : Z) : spec_float :=
  let '(m, e, l) := SFdiv_core_binary prec emax n 0 d 0 in
  binary_round_aux prec emax sign m e l.

Definition is_inf (f : spec_float) : bool :=
  match f with S754_infinity _ => true | _ => false end.

Definition is_zero (f : spec_float) : bool :=
  match f with S754_zero _ => true | _ => false end.

(** [float(z)] for an int: rounds to nearest, [OverflowError] when too large. *)
Definition float_of_int (z : Z) : exn + spec_float :=
  let f := binary_normalize prec emax z 0 false in
  if is_inf f then inl OverflowError else inr f.

Definition as_float (v : pyval) : exn + spec_float :=
  match v with
  | VInt z => float_of_int z
  | VFloat f => inr f
  | VEllipsis => inl TypeError
  end.

Definition float_op (op : spec_float -> spec_float -> spec_float)
    (a b : pyval) : exn + pyval :=
  match as_float a with
  | inl e => inl e
  | inr fa =>
      match as_float b with
      | inl e => inl e
      | inr fb => inr (VFloat (op fa fb))
      end
  end.

(** [a + b] *)
Definition py_add (a b : pyval) : exn + pyval :=
  match a, b with
  | VInt x, VInt y => inr (VInt (x + y))
  | VEllipsis, _ | _, VEllipsis => inl TypeError
  | _, _ => float_op (SFadd prec emax) a b
  end.

(** [a - b] *)
Definition py_sub (a b : pyval) : exn + pyval :=
  match a, b with
  | VInt x, VInt y => inr (VInt (x - y))
  | VEllipsis, _ | _, VEllipsis => inl TypeError
  | _, _ => float_op (SFsub prec emax) a b
  end.

(** [a * b] *)
Definition py_mul (a b : pyval) : exn + pyval :=
  match a, b with
  | VInt x, VInt y => inr (VInt (x * y))
  | VEllipsis, _ | _, VEllipsis => inl TypeError
  | _, _ => float_op (SFmul prec emax) a b
  end.

(** [x / y] on two ints: the correctly rounded quotient. *)
Definition int_truediv (x y : Z) : exn + pyval :=
  let negate := xorb (x <? 0) (y <? 0) in
  match x, y with
  | _, Z0 => inl ZeroDivisionError
  | Z0, _ => inr (VFloat (S754_zero negate))
  | _, _ =>
      let f := round_ratio negate (Z.abs x) (Z.abs y) in
      if is_inf f then inl OverflowError else inr (VFloat f)
  end.

(** [a / b] *)
Definition py_truediv (a b : pyval) : exn + pyval :=
  match a, b with
  | VInt x, VInt y => int_truediv x y
  | VEllipsis, _ | _, VEllipsis => inl TypeError
  | _, _ =>
      match as_float a with
      | inl e => inl e
      | inr fa =>
          match as_float b with
          | inl e => inl e
          | inr fb =>
              if is_zero fb then inl ZeroDivisionError
              else inr (VFloat (SFdiv prec emax fa fb))
          end
      end
  end.

(** *** [eval] on number tokens *)

Definition is_digit (a : ascii) : bool :=
  let n := nat_of_ascii a in (48 <=? n)%nat && (n <=? 57)%nat.

Definition digit_value (a : ascii) : Z := Z.of_nat (nat_of_ascii a) - 48.

(** The value of a run of decimal digits, most significant first. *)
Definition int_of_digits (l : list ascii) : Z :=
  fold_left (fun acc a => 10 * acc + digit_value a) l 0.

(** The longest prefix of digits, and what follows it. *)
Fixpoint span_digits (l : list ascii) : list ascii * list ascii :=
  match l with
  | a :: l' =>
      if is_digit a then let '(ds, rest) := span_digits l' in (a :: ds, rest)
      else ([], l)
  | [] => ([], [])
  end.

(** A decimal integer literal is a non-zero digit followed by digits, or
    a run of zeros. *)
Definition decinteger_ok (ds : list ascii) : bool :=
  match ds with
  | [] => false
  | a :: _ => negb (Ascii.eqb a "0") || forallb (Ascii.eqb "0"%char) ds
  end.

(** The float denoted by the digits [ip] [.] [fp]. *)
Definition float_of_decimal (ip fp : list ascii) : spec_float :=
  let n := int_of_digits (ip ++ fp) in
  if n =? 0 then S754_zero false
  else round_ratio false n (10 ^ Z.of_nat (List.length fp)).

(** [eval(src)] for a non-empty [src] over the characters [0-9] and [.],
    the only strings [digits] passes to it.  Such a string is an expression
    exactly when it is one number token or the token [...]; two tokens in
    a row, a lone [.] and an integer literal with a leading zero are syntax
    errors.  (The interpreter's configurable cap on the length of an integer
    literal is not modelled.) *)
Definition py_eval (src : string) : exn + pyval :=
  let l := list_ascii_of_string src in
  if String.eqb src "..." then inr VEllipsis
  else
    match l with
    | [] => inl SyntaxError
    | a :: l' =>
        if Ascii.eqb a "." then
          match span_digits l' with
          | ([], _) => inl SyntaxError
          | (fp, []) => inr (VFloat (float_of_decimal [] fp))
          | (_, _ :: _) => inl SyntaxError
          end
        else
          match span_digits l with
          | ([], _) => inl SyntaxError
          | (ip, []) =>
              if decinteger_ok ip then inr (VInt (int_of_digits ip))
              else inl SyntaxError
          | (ip, b :: rest) =>
              if Ascii.eqb b "." then
                match span_digits rest with
                | (fp, []) => inr (VFloat (float_of_decimal ip fp))
                | (_, _ :: _) => inl SyntaxError
                end
              else inl SyntaxError
          end
    end.

(** ** class Context *)

Definition Context_init (s0 : string) (p : Z) : Context.t :=
  {| Context.s := py_strip s0; Context.pos := p |}.

Definition Context_at (self : Context.t) : exn + option ascii :=
  if Context.pos self >=? py_len (Context.s self) then inr None
  else
    match py_getitem (Context.s self) (Context.pos self) with
    | Some ch => inr (Some ch)
    | None => inl IndexError
    end.

Definition Context_pick (self : Context.t) : exn + ascii :=
  match Context_at self with
  | inl e => inl e
  | inr None => inl (ParsingError "Error" self)
  | inr (Some i) => inr i
  end.

Definition Context_next (self : Context.t) : Context.t :=
  Context_init (Context.s self) (Context.pos self + 1).

Definition Context_copy (self : Context.t) : Context.t :=
  Context_init (Context.s self) (Context.pos self).

Definition Context_rest_str (self : Context.t) : string :=
  py_slice_from (Context.s self) (Context.pos self).

(** ** class Parser *)

Inductive outcome (A : Type) : Type :=
| Ok (a : A) (ctx : Context.t)
| Raise (e : exn)
| Diverge.

Arguments Ok {A} a ctx.
Arguments Raise {A} e.
Arguments Diverge {A}.

Definition Parser (A : Type) : Type := Context.t -> outcome A.

(** [Parser.parse] of the base class: [None] and the cursor it was given. *)
Definition Parser_parse : Parser unit :=
  fun context => Ok tt context.

(** [self | other] *)
Definition Parser_or {A} (self other : Parser A) : Parser A :=
  fun context =>
    match self context with
    | Raise (ParsingError _ _) => other context
    | r => r
    end.

Definition Parser_ret {A} (data : A) : Parser A :=
  fun context => Ok data context.

Definition Parser_bind {A B} (self : Parser A) (f : A -> Parser B) : Parser B :=
  fun context =>
    match self context with
    | Ok a context' => f a context'
    | Raise e => Raise e
    | Diverge => Diverge
    end.

Definition Parser_pick : Parser ascii :=
  fun context =>
    match Context_pick context with
    | inr ch => Ok ch context
    | inl e => Raise e
    end.

Definition Parser_next : Parser Context.t :=
  fun context => Ok context (Context_next context).

(** A [@do] block is the chain of [bind]s that [reduce] builds from the
    generator: [x = yield p; rest] is [p.bind(lambda x: rest)]. *)
Notation "x <- p ;; k" := (Parser_bind p (fun x => k))
  (at level 61, p at next level, right associativity).
Notation "p ;; k" := (Parser_bind p (fun _ => k))
  (at level 61, right associativity).

(** An expression evaluated inside a [@do] block, wrapped by [Parser.ret]. *)
Definition ret_or_raise {A} (r : exn + A) : Parser A :=
  match r with
  | inr v => Parser_ret v
  | inl e => fun _ => Raise e
  end.

(** ** Character parsers *)

Definition Sat (p : ascii -> bool) : Parser ascii :=
  fun context =>
    match Context_pick context with
    | inl e => Raise e
    | inr ch =>
        if p ch then Ok ch (Context_next context)
        else Raise (ParsingError ("Unexpected Char: " ++ String ch EmptyString) context)
    end.

Definition Char (c : ascii) : Parser ascii :=
  Sat (fun x => Ascii.eqb x c).

(** The loop of [String.parse] over the characters still to match. *)
Fixpoint String_loop (chars : string) : Parser unit :=
  match chars with
  | EmptyString => Parser_ret tt
  | String ch chars' => Char ch ;; String_loop chars'
  end.

Definition String_ (s0 : string) : Parser string :=
  String_loop s0 ;; Parser_ret s0.

(** ** Repetition *)

Fixpoint Many {A} (fuel : nat) (p : Parser A) : Parser (list A) :=
  match fuel with
  | O => fun _ => Diverge
  | S fuel' =>
      Parser_or (x <- p ;; xs <- Many fuel' p ;; Parser_ret (x :: xs))
                (Parser_ret [])
  end.

Definition many1 {A} (fuel : nat) (p : Parser A) : Parser (list A) :=
  x <- p ;; xs <- Many fuel p ;; Parser_ret (x :: xs).

(** ** Lexical layer *)

(** The literal [" \t\n\r"]. *)
Definition space_chars : string :=
  String " " (String "009" (String "010" (String "013" EmptyString))).

Definition space (fuel : nat) : Parser (list ascii) :=
  Many fuel (Sat (fun x => py_in x space_chars)).

Definition token {A} (fuel : nat) (p : Parser A) : Parser A :=
  a <- p ;; space fuel ;; Parser_ret a.

Definition Symb (fuel : nat) (s0 : string) : Parser string :=
  token fuel (String_ s0).

(** ** Grammar *)

Definition binop : Type := pyval -> pyval -> exn + pyval.

Definition operator (pop : Parser binop) (pn1 pn2 : Parser pyval) : Parser pyval :=
  n1 <- pn1 ;; op <- pop ;; n2 <- pn2 ;; ret_or_raise (op n1 n2).

(** The local parsers of [addop] and [mulop]. *)
Definition plus (fuel : nat) : Parser binop := Symb fuel "+" ;; Parser_ret py_add.
Definition minus (fuel : nat) : Parser binop := Symb fuel "-" ;; Parser_ret py_sub.
Definition times (fuel : nat) : Parser binop := Symb fuel "*" ;; Parser_ret py_mul.
Definition divide (fuel : nat) : Parser binop := Symb fuel "/" ;; Parser_ret py_truediv.

Definition addop (fuel : nat) (pn1 pn2 : Parser pyval) : Parser pyval :=
  operator (Parser_or (plus fuel) (minus fuel)) pn1 pn2.

Definition mulop (fuel : nat) (pn1 pn2 : Parser pyval) : Parser pyval :=
  operator (Parser_or (times fuel) (divide fuel)) pn1 pn2.

Definition digits (fuel : nat) : Parser pyval :=
  fun context =>
    let one := Sat (fun z => py_in z "1234567890.") in
    match token fuel (many1 fuel one) context with
    | Ok x context' =>
        match py_eval (py_join x) with
        | inr v => Ok v context'
        | inl e => Raise e
        end
    | Raise e => Raise e
    | Diverge => Diverge
    end.

(** [expr], [term] and [factor] call each other without bound; each call
    spends one unit of [fuel]. *)
Fixpoint expr (fuel : nat) : Parser pyval :=
  match fuel with
  | O => fun _ => Diverge
  | S fuel' => Parser_or (addop fuel' (term fuel') (expr fuel')) (term fuel')
  end
with term (fuel : nat) : Parser pyval :=
  match fuel with
  | O => fun _ => Diverge
  | S fuel' => Parser_or (mulop fuel' (factor fuel') (term fuel')) (factor fuel')
  end
with factor (fuel : nat) : Parser pyval :=
  match fuel with
  | O => fun _ => Diverge
  | S fuel' =>
      let m := Symb fuel' "(" ;; n <- expr fuel' ;; Symb fuel' ")" ;; Parser_ret n in
      Parser_or (digits fuel') m
  end.

(** ** Entry point *)

(** What one round of the loop in [main] does with a line. *)
Inductive report : Type :=
| Stop
| PrintValue (value : pyval)
| ExtraInput (ctx : Context.t)
| PrintError (msg : string) (ctx : Context.t)
| Uncaught (e : exn)
| Hang.

Definition main_round (fuel : nat) (line : string) : report :=
  if String.eqb line "" then Stop
  else
    match expr fuel (Context_init line 0) with
    | Ok value ctx =>
        if negb (String.eqb (Context_rest_str ctx) "") then ExtraInput ctx
        else PrintValue value
    | Raise (ParsingError msg ctx) => PrintError msg ctx
    | Raise e => Uncaught e
    | Diverge => Hang
    end.

(** The interface of section 6 of the specification:
    [expr.parse(Context(input))] with the cursor replaced by its
    remaining text. *)
Inductive parse_result : Type :=
| Parsed (value : pyval) (remainder : string)
| Failed (e : exn)
| NoAnswer.

Definition parse (fuel : nat) (input : string) : parse_result :=
  match expr fuel (Context_init input 0) with
  | Ok value ctx => Parsed value (Context_rest_str ctx)
  | Raise e => Failed e
  | Diverge => NoAnswer
  end.

(** [parse] answers [r] on [input]: every large enough amount of fuel
    gives [r], and [r] is an answer. *)
Definition parses_to (input : string) (r : parse_result) : Prop :=
  r <> NoAnswer /\ exists n, forall fuel, (n <= fuel)%nat -> parse fuel input = r.

(** The fuel-indexed parser [P] answers [r] at [c]. *)
Definition answers {A} (P : nat -> Parser A) (c : Context.t) (r : outcome A) : Prop :=
  r <> Diverge /\ exists n, forall fuel, (n <= fuel)%nat -> P fuel c = r.

(** [main] reports [r] on [line]. *)
Definition main_reports (line : string) (r : report) : Prop :=
  r <> Hang /\ exists n, forall fuel, (n <= fuel)%nat -> main_round fuel line = r.

(** A cursor as the constructor builds it (trimmed text), with its
    position inside the text or at its end. *)
Definition cursor_ok (c : Context.t) : Prop :=
  py_strip (Context.s c) = Context.s c /\
  0 <= Context.pos c <= py_len (Context.s c).

(** [p] takes a well-formed cursor to one that [R] relates to it,
    whenever it succeeds. *)
Definition respects {A} (R : Context.t -> Context.t -> Prop) (p : Parser A) : Prop :=
  forall c a c', cursor_ok c -> p c = Ok a c' -> R c c'.

(** [c'] is over the text of [c], at a position inside it or at its end. *)
Definition in_text (c c' : Context.t) : Prop :=
  Context.s c' = Context.s c /\
  0 <= Context.pos c' <= py_len (Context.s c').

(** The same, and [c'] is not before [c]. *)
Definition onward (c c' : Context.t) : Prop :=
  Context.s c' = Context.s c /\
  Context.pos c <= Context.pos c' <= py_len (Context.s c').

(** A parser that, on success, hands back a cursor over the same text
    with a position inside the text or at its end. *)
Definition keeps_cursor {A} (p : Parser A) : Prop := respects in_text p.

(** The same, and [c'] is after [c]. *)
Definition further (c c' : Context.t) : Prop :=
  Context.s c' = Context.s c /\
  Context.pos c < Context.pos c' <= py_len (Context.s c').

(** A parser that never moves the cursor back. *)
Definition forward {A} (p : Parser A) : Prop := respects onward p.

(** A parser that consumes at least one character when it succeeds. *)
Definition advances {A} (p : Parser A) : Prop := respects further p.

(** The number of characters from the cursor to the end of its text. *)
Definition remaining (c : Context.t) : nat :=
  Z.to_nat (py_len (Context.s c) - Context.pos c).

(** The strings of claim C1: digit characters, at least one, with at most
    one [.] among them. *)
Definition digits_with_optional_dot (x : string) : bool :=
  let l := list_ascii_of_string x in
  forallb (fun a => is_digit a || Ascii.eqb a ".") l
  && existsb is_digit l
  && (List.length (filter (Ascii.eqb ".") l) <=? 1)%nat.

(** The floating-point numeric value of such a string: the binary64
    value nearest to the decimal number it writes. *)
Definition decimal_value (x : string) : spec_float :=
  let '(ip, rest) := span_digits (list_ascii_of_string x) in
  float_of_decimal ip (tl rest).

(** The cursor [k] characters into [text]. *)
Definition cursor_at (text : string) (k : nat) : Context.t :=
  Context.mk text (Z.of_nat k).

(** The float that equals the integer [z] (for [|z| <= 2^53]). *)
Definition float_of_Z (z : Z) : spec_float :=
  binary_normalize prec emax z 0 false.

(** ** [Context.__repr__] and the loop of [main] *)

(** [x.split("\n")] *)
Fixpoint py_split_newline (x : string) : list string :=
  match x with
  | EmptyString => [EmptyString]
  | String a x' =>
      if Ascii.eqb a "010" then EmptyString :: py_split_newline x'
      else
        match py_split_newline x' with
        | line :: lines => String a line :: lines
        | [] => [String a EmptyString]
        end
  end.

(** [str(z)] for an int *)
Definition py_str_int (z : Z) : string := NilZero.string_of_int (Z.to_int z).

(** The [for] loop of [__repr__] over the lines still to visit.  Leaving
    the loop gives [None]: the statement after it builds a string and
    drops it, so the method returns nothing. *)
Fixpoint repr_loop (lines : list string) (pos line_no cols : Z) : option string :=
  match lines with
  | [] => None
  | line :: lines' =>
      let line_no := line_no + 1 in
      if pos <? cols + py_len line + 1
      then Some (py_str_int line_no ++ ":" ++ py_str_int (pos - cols + 1)
                 ++ ": " ++ line)
      else repr_loop lines' pos line_no (cols + py_len line + 1)
  end.

Definition Context_repr (self : Context.t) : option string :=
  repr_loop (py_split_newline (Context.s self)) (Context.pos self) 0 0.

(** How a run of [main] ends: the [break] on an empty line, an exception
    that leaves [main], [input] finding no line left, or no fuel. *)
Inductive ending : Type :=
| Exited
| Aborted (e : exn)
| EndOfInput
| Stuck.

(** [print] of a cursor, or of an error that carries one, calls
    [__repr__]; a [__repr__] that returns [None] makes it raise
    [TypeError]. *)
Definition print_fails (r : report) : bool :=
  match r with
  | ExtraInput ctx | PrintError _ ctx =>
      match Context_repr ctx with None => true | Some _ => false end
  | _ => false
  end.

(** [main] on the lines that [input] will return, one after the other:
    what it prints, and how it ends. *)
Fixpoint main (fuel : nat) (stdin : list string) : list report * ending :=
  match stdin with
  | [] => ([], EndOfInput)
  | line :: stdin' =>
      match main_round fuel line with
      | Stop => ([], Exited)
      | Uncaught e => ([], Aborted e)
      | Hang => ([], Stuck)
      | r =>
          if print_fails r then ([], Aborted TypeError)
          else let '(out, fin) := main fuel stdin' in (r :: out, fin)
      end
  end.

(** The message a [ParsingError] raised at the cursor [k] carries:
    ["Error"] at the end of the text, the character found otherwise. *)
Definition message_at (k : Context.t) (msg : string) : Prop :=
  match Context_at k with
  | inr None => msg = "Error"
  | inr (Some ch) => msg = "Unexpected Char: " ++ String ch EmptyString
  | inl _ => False
  end.

(** What a failure of a parser started at [c] may be: a [ParsingError]
    at a cursor of the same text, not before [c], with the message of
    that place; or an exception of [eval] or of the arithmetic. *)
Definition fair_failure (c : Context.t) (e : exn) : Prop :=
  match e with
  | ParsingError msg k => onward c k /\ message_at k msg
  | IndexError => False
  | _ => True
  end.

Definition fails_fairly {A} (p : Parser A) : Prop :=
  forall c e, cursor_ok c -> p c = Raise e -> fair_failure c e.

(** No white space of the lexical layer under the cursor. *)
Definition past_space (c : Context.t) : Prop :=
  forall ch, Context_at c = inr (Some ch) -> py_in ch space_chars = false.

(** A parser that leaves no white space under the cursor it hands back. *)
Definition tidy {A} (p : Parser A) : Prop :=
  forall c v c', p c = Ok v c' -> past_space c'.

(** [l] is white space for [strip]. *)
Definition all_space (x : string) : Prop :=
  forallb py_isspace (list_ascii_of_string x) = true.

(** * Properties *)

(** ** The number model on samples *)

Example eval_samples :
  py_eval "0" = inr (VInt 0) /\
  py_eval "000" = inr (VInt 0) /\
  py_eval "1024" = inr (VInt 1024) /\
  py_eval "007" = inl SyntaxError /\
  py_eval "1." = inr (VFloat (float_of_Z 1)) /\
  py_eval ".5" = inr (VFloat (S754_finite false 4503599627370496 (-53))) /\
  py_eval "01.5" = inr (VFloat (S754_finite false 6755399441055744 (-52))) /\
  py_eval "0.1" = inr (VFloat (S754_finite false 7205759403792794 (-56))) /\
  py_eval "." = inl SyntaxError /\
  py_eval ".." = inl SyntaxError /\
  py_eval "..." = inr VEllipsis /\
  py_eval "1.2.3" = inl SyntaxError.
Proof. repeat split; vm_compute; reflexivity. Qed.

Example arithmetic_samples :
  py_truediv (VInt 1) (VInt 3) = inr (VFloat (S754_finite false 6004799503160661 (-54))) /\
  py_truediv (VInt 7) (VInt 2) = inr (VFloat (S754_finite false 7881299347898368 (-51))) /\
  py_truediv (VInt 0) (VInt (-5)) = inr (VFloat (S754_zero true)) /\
  py_truediv (VFloat (float_of_Z 1)) (VFloat (S754_zero false)) = inl ZeroDivisionError /\
  py_add (VInt 1) (VFloat (float_of_Z 2)) = inr (VFloat (float_of_Z 3)) /\
  py_add (VInt 9007199254740993) (VFloat (S754_zero false)) =
    inr (VFloat (float_of_Z 9007199254740992)) /\
  py_mul (VInt 9007199254740993) (VInt 3) = inr (VInt 27021597764222979) /\
  py_sub VEllipsis (VInt 1) = inl TypeError /\
  py_add (VInt (2 ^ 1024)) (VFloat (float_of_Z 1)) = inl OverflowError.
Proof. repeat split; vm_compute; reflexivity. Qed.

(** ** Trimming *)

Lemma py_lstrip_head (x : string) :
  match py_lstrip x with
  | EmptyString => True
  | String a _ => py_isspace a = false
  end.
Proof.
  induction x as [|a x IH]; simpl; [exact I|].
  destruct (py_isspace a) eqn:E; [exact IH | exact E].
Qed.

Lemma py_lstrip_id (a : ascii) (x : string) :
  py_isspace a = false -> py_lstrip (String a x) = String a x.
Proof. intros E; simpl; rewrite E; reflexivity. Qed.

Lemma py_rstrip_eq (a : ascii) (x : string) :
  py_rstrip (String a x) =
  match py_rstrip x with
  | EmptyString => if py_isspace a then EmptyString else String a EmptyString
  | r => String a r
  end.
Proof. reflexivity. Qed.

Lemma py_rstrip_idem (x : string) : py_rstrip (py_rstrip x) = py_rstrip x.
Proof.
  induction x as [|a x IH]; [reflexivity|].
  rewrite py_rstrip_eq.
  destruct (py_rstrip x) as [|b r] eqn:E.
  - destruct (py_isspace a) eqn:Ea; simpl; [reflexivity|].
    rewrite Ea; reflexivity.
  - rewrite py_rstrip_eq, IH. reflexivity.
Qed.

Lemma py_rstrip_cons (a : ascii) (x : string) :
  py_isspace a = false -> py_rstrip (String a x) = String a (py_rstrip x).
Proof.
  intros E; simpl. destruct (py_rstrip x); [rewrite E|]; reflexivity.
Qed.

Lemma py_strip_idem (x : string) : py_strip (py_strip x) = py_strip x.
Proof.
  unfold py_strip.
  pose proof (py_lstrip_head x) as H.
  destruct (py_lstrip x) as [|a y]; [reflexivity|].
  rewrite (py_rstrip_cons a y H), (py_lstrip_id a _ H).
  rewrite (py_rstrip_cons a _ H), py_rstrip_idem. reflexivity.
Qed.

Lemma Context_init_ok (s0 : string) (p : Z) :
  0 <= p <= py_len (py_strip s0) -> cursor_ok (Context_init s0 p).
Proof.
  intros H; split; simpl; [apply py_strip_idem | exact H].
Qed.

Lemma cursor_ok_constructed (c : Context.t) :
  cursor_ok c -> c = Context_init (Context.s c) (Context.pos c).
Proof.
  intros [H _]. destruct c as [x p]; unfold Context_init; simpl in *.
  rewrite H; reflexivity.
Qed.

Lemma Context_next_ok (c : Context.t) :
  py_strip (Context.s c) = Context.s c ->
  Context_next c = Context.mk (Context.s c) (Context.pos c + 1).
Proof. intros H; unfold Context_next, Context_init; rewrite H; reflexivity. Qed.

(** ** More fuel never changes an answer *)

(** [r'] is [r], unless [r] ran out of fuel. *)
Definition settles {A} (r r' : outcome A) : Prop := r = Diverge \/ r' = r.

Definition psettles {A} (p p' : Parser A) : Prop :=
  forall c, settles (p c) (p' c).

Lemma psettles_refl {A} (p : Parser A) : psettles p p.
Proof. intros c; right; reflexivity. Qed.

Lemma psettles_bind {A B} (p p' : Parser A) (f f' : A -> Parser B) :
  psettles p p' -> (forall a, psettles (f a) (f' a)) ->
  psettles (Parser_bind p f) (Parser_bind p' f').
Proof.
  intros Hp Hf c. unfold Parser_bind.
  destruct (Hp c) as [H|H]; rewrite H; [left; reflexivity|].
  destruct (p c) as [a c'| |]; [apply Hf | right; reflexivity | left; reflexivity].
Qed.

Lemma psettles_or {A} (a a' b b' : Parser A) :
  psettles a a' -> psettles b b' -> psettles (Parser_or a b) (Parser_or a' b').
Proof.
  intros Ha Hb c. unfold Parser_or.
  destruct (Ha c) as [H|H]; rewrite H; [left; reflexivity|].
  destruct (a c) as [v c'|[]|]; try (right; reflexivity); apply Hb.
Qed.

Lemma Many_mono {A} (p : Parser A) (n m : nat) :
  (n <= m)%nat -> psettles (Many n p) (Many m p).
Proof.
  revert m; induction n as [|n IH]; intros m Hle.
  - intros c; left; reflexivity.
  - destruct m as [|m]; [lia|]. simpl.
    apply psettles_or; [|apply psettles_refl].
    apply psettles_bind; [apply psettles_refl|]; intros x.
    apply psettles_bind; [apply IH; lia|]; intros xs. apply psettles_refl.
Qed.

Lemma many1_mono {A} (p : Parser A) (n m : nat) :
  (n <= m)%nat -> psettles (many1 n p) (many1 m p).
Proof.
  intros Hle. unfold many1.
  apply psettles_bind; [apply psettles_refl|]; intros x.
  apply psettles_bind; [apply Many_mono, Hle|]; intros xs. apply psettles_refl.
Qed.

Lemma token_mono {A} (p p' : Parser A) (n m : nat) :
  (n <= m)%nat -> psettles p p' -> psettles (token n p) (token m p').
Proof.
  intros Hle Hp. unfold token, space.
  apply psettles_bind; [exact Hp|]; intros a.
  apply psettles_bind; [apply Many_mono, Hle|]; intros xs. apply psettles_refl.
Qed.

Lemma Symb_mono (x : string) (n m : nat) :
  (n <= m)%nat -> psettles (Symb n x) (Symb m x).
Proof. intros Hle. apply token_mono; [exact Hle | apply psettles_refl]. Qed.

Lemma operator_mono (pop pop' : Parser binop) (pn1 pn1' pn2 pn2' : Parser pyval) :
  psettles pop pop' -> psettles pn1 pn1' -> psettles pn2 pn2' ->
  psettles (operator pop pn1 pn2) (operator pop' pn1' pn2').
Proof.
  intros Ho H1 H2. unfold operator.
  apply psettles_bind; [exact H1|]; intros n1.
  apply psettles_bind; [exact Ho|]; intros op.
  apply psettles_bind; [exact H2|]; intros n2. apply psettles_refl.
Qed.

Lemma opsym_mono (x : string) (op : binop) (n m : nat) :
  (n <= m)%nat ->
  psettles (Symb n x ;; Parser_ret op) (Symb m x ;; Parser_ret op).
Proof.
  intros Hle. apply psettles_bind; [apply Symb_mono, Hle|].
  intros _; apply psettles_refl.
Qed.

Lemma mul_symbol_mono (n m : nat) :
  (n <= m)%nat ->
  psettles (Parser_or (times n) (divide n)) (Parser_or (times m) (divide m)).
Proof. intros Hle. apply psettles_or; apply opsym_mono, Hle. Qed.

Lemma addop_mono (pn1 pn1' pn2 pn2' : Parser pyval) (n m : nat) :
  (n <= m)%nat -> psettles pn1 pn1' -> psettles pn2 pn2' ->
  psettles (addop n pn1 pn2) (addop m pn1' pn2').
Proof.
  intros Hle H1 H2. unfold addop. apply operator_mono; [|exact H1|exact H2].
  apply psettles_or; apply opsym_mono, Hle.
Qed.

Lemma mulop_mono (pn1 pn1' pn2 pn2' : Parser pyval) (n m : nat) :
  (n <= m)%nat -> psettles pn1 pn1' -> psettles pn2 pn2' ->
  psettles (mulop n pn1 pn2) (mulop m pn1' pn2').
Proof.
  intros Hle H1 H2. unfold mulop. apply operator_mono; [|exact H1|exact H2].
  apply mul_symbol_mono, Hle.
Qed.

Lemma digits_mono (n m : nat) : (n <= m)%nat -> psettles (digits n) (digits m).
Proof.
  intros Hle c. unfold digits.
  set (one := Sat (fun z => py_in z "1234567890.")).
  destruct (token_mono _ _ n m Hle (many1_mono one n m Hle) c) as [H|H];
    rewrite H; [left; reflexivity | right; reflexivity].
Qed.

Lemma grammar_mono (n : nat) :
  forall m, (n <= m)%nat ->
    psettles (expr n) (expr m) /\ psettles (term n) (term m) /\
    psettles (factor n) (factor m).
Proof.
  induction n as [|n IH]; intros m Hle.
  - repeat split; intros c; left; reflexivity.
  - destruct m as [|m]; [lia|].
    destruct (IH m ltac:(lia)) as (He & Ht & Hf).
    assert (Hnm : (n <= m)%nat) by lia.
    repeat split; simpl.
    + apply psettles_or; [apply addop_mono|]; assumption.
    + apply psettles_or; [apply mulop_mono|]; assumption.
    + apply psettles_or; [apply digits_mono, Hnm|].
      apply psettles_bind; [apply Symb_mono, Hnm|]; intros _.
      apply psettles_bind; [exact He|]; intros v.
      apply psettles_bind; [apply Symb_mono, Hnm|]; intros _.
      apply psettles_refl.
Qed.

Lemma expr_mono (n m : nat) (c : Context.t) (r : outcome pyval) :
  (n <= m)%nat -> expr n c = r -> r <> Diverge -> expr m c = r.
Proof.
  intros Hle <- Hr.
  destruct (proj1 (grammar_mono n m Hle) c) as [H|H]; [contradiction | exact H].
Qed.

(** One run with an answer settles [parse] for every larger fuel. *)
Lemma parses_to_run (n : nat) (input : string) (r : parse_result) :
  parse n input = r -> r <> NoAnswer -> parses_to input r.
Proof.
  intros Hrun Hr. split; [exact Hr|]. exists n. intros fuel Hle.
  unfold parse in *.
  destruct (expr n (Context_init input 0)) as [v c| e |] eqn:E.
  - rewrite (expr_mono n fuel _ _ Hle E); [exact Hrun | discriminate].
  - rewrite (expr_mono n fuel _ _ Hle E); [exact Hrun | discriminate].
  - subst r; contradiction.
Qed.

Lemma main_reports_run (n : nat) (line : string) (r : report) :
  main_round n line = r -> r <> Hang -> main_reports line r.
Proof.
  intros Hrun Hr. split; [exact Hr|]. exists n. intros fuel Hle.
  unfold main_round in *.
  destruct (String.eqb line ""); [exact Hrun|].
  destruct (expr n (Context_init line 0)) as [v c| e |] eqn:E.
  - rewrite (expr_mono n fuel _ _ Hle E); [exact Hrun | discriminate].
  - rewrite (expr_mono n fuel _ _ Hle E); [exact Hrun | discriminate].
  - subst r; contradiction.
Qed.

Lemma parses_to_unique (input : string) (r r' : parse_result) :
  parses_to input r -> parses_to input r' -> r = r'.
Proof.
  intros [_ [n Hn]] [_ [m Hm]].
  rewrite <- (Hn (Nat.max n m)), <- (Hm (Nat.max n m)); [reflexivity| |]; lia.
Qed.

Lemma answers_run {A} (P : nat -> Parser A) (n : nat) (c : Context.t)
    (r : outcome A) :
  (forall m, (n <= m)%nat -> psettles (P n) (P m)) ->
  P n c = r -> r <> Diverge -> answers P c r.
Proof.
  intros Hmono Hrun Hr. split; [exact Hr|]. exists n. intros fuel Hle.
  destruct (Hmono fuel Hle c) as [H|H]; congruence.
Qed.

(** ** Ordered choice *)

Lemma Parser_or_success {A} (a b : Parser A) (c c' : Context.t) (v : A) :
  a c = Ok v c' -> Parser_or a b c = Ok v c'.
Proof. intros H; unfold Parser_or; rewrite H; reflexivity. Qed.

Lemma Parser_or_retry {A} (a b : Parser A) (c k : Context.t) (msg : string) :
  a c = Raise (ParsingError msg k) -> Parser_or a b c = b c.
Proof. intros H; unfold Parser_or; rewrite H; reflexivity. Qed.

Lemma Parser_or_passes {A} (a b : Parser A) (c : Context.t) (e : exn) :
  a c = Raise e -> is_ParsingError e = false -> Parser_or a b c = Raise e.
Proof.
  intros H He; unfold Parser_or; rewrite H.
  destruct e; [discriminate He| | | | |]; reflexivity.
Qed.

(** ** Worked inputs *)

Ltac run_parse n :=
  apply (parses_to_run n); [vm_compute; reflexivity | discriminate].

Ltac run_main n :=
  apply (main_reports_run n); [vm_compute; reflexivity | discriminate].

(** C2: the binary operators associate to the right.  [parse("10-3-2")]
    answers 9 (and so not 5), [parse("12/3/2")] answers 8.0 (and so not
    2.0); the right operand of [addop] in [expr] is [expr] itself and the
    right operand of [mulop] in [term] is [term] itself. *)
Theorem C2_right_associative :
  parses_to "10-3-2" (Parsed (VInt 9) "") /\
  ~ parses_to "10-3-2" (Parsed (VInt 5) "") /\
  parses_to "12/3/2" (Parsed (VFloat (float_of_Z 8)) "") /\
  ~ parses_to "12/3/2" (Parsed (VFloat (float_of_Z 2)) "") /\
  (forall fuel, expr (S fuel) =
     Parser_or (addop fuel (term fuel) (expr fuel)) (term fuel)) /\
  (forall fuel, term (S fuel) =
     Parser_or (mulop fuel (factor fuel) (term fuel)) (factor fuel)).
Proof.
  assert (H9 : parses_to "10-3-2" (Parsed (VInt 9) "")) by run_parse 20%nat.
  assert (H8 : parses_to "12/3/2" (Parsed (VFloat (float_of_Z 8)) ""))
    by run_parse 20%nat.
  refine (conj H9 (conj _ (conj H8 (conj _ (conj _ _))))).
  - intros H5. pose proof (parses_to_unique _ _ _ H9 H5) as E. discriminate E.
  - intros H2. pose proof (parses_to_unique _ _ _ H8 H2) as E.
    vm_compute in E. discriminate E.
  - intros fuel; reflexivity.
  - intros fuel; reflexivity.
Qed.

(** C3: multiplication binds tighter than addition, and parentheses
    override precedence and associativity: [parse("2+3*4")] answers 14,
    [parse("(2+3)*4")] answers 20 and [parse("(10-3)-2")] answers 5. *)
Theorem C3_precedence_and_parentheses :
  parses_to "2+3*4" (Parsed (VInt 14) "") /\
  parses_to "(2+3)*4" (Parsed (VInt 20) "") /\
  parses_to "(10-3)-2" (Parsed (VInt 5) "").
Proof. refine (conj _ (conj _ _)); run_parse 30%nat. Qed.

(** C6: extra input is told apart from a parse failure.  On ["1+2)"] the
    parser answers 3 and leaves [")"], and [main] takes its extra-input
    branch; on ["(1+2"] the parser raises a [ParsingError] and [main]
    prints that error, so its extra-input branch is not taken. *)
Theorem C6_extra_input_versus_failure :
  parses_to "1+2)" (Parsed (VInt 3) ")") /\
  main_reports "1+2)" (ExtraInput (Context.mk "1+2)" 3)) /\
  parses_to "(1+2" (Failed (ParsingError "Error" (Context.mk "(1+2" 4))) /\
  main_reports "(1+2" (PrintError "Error" (Context.mk "(1+2" 4)) /\
  (forall c, ~ main_reports "(1+2" (ExtraInput c)).
Proof.
  assert (Hm : main_reports "(1+2" (PrintError "Error" (Context.mk "(1+2" 4)))
    by run_main 30%nat.
  refine (conj _ (conj _ (conj _ (conj Hm _)))).
  - run_parse 30%nat.
  - run_main 30%nat.
  - run_parse 30%nat.
  - intros c [_ [n Hn]]. destruct Hm as [_ [m Hm]].
    specialize (Hn (Nat.max n m) ltac:(lia)).
    specialize (Hm (Nat.max n m) ltac:(lia)). congruence.
Qed.

(** C10: some strings made only of characters the number rule accepts are
    not numerals.  On ["."] and on ["1..2"] every character passes the
    test of [digits], [eval] raises [SyntaxError], which is not a
    [ParsingError]: the choice in [factor] lets it through whatever its
    second alternative is, [parse] neither succeeds nor fails with a
    [ParsingError], and [main] does not catch it. *)
Theorem C10_digits_raises_syntax_error :
  (forall input, input = "." \/ input = "1..2" ->
     forallb (fun z => py_in z "1234567890.") (list_ascii_of_string input) = true /\
     py_eval input = inl SyntaxError /\
     answers digits (Context_init input 0) (Raise SyntaxError) /\
     (exists n, forall fuel b, (n <= fuel)%nat ->
        Parser_or (digits fuel) b (Context_init input 0) = Raise SyntaxError) /\
     parses_to input (Failed SyntaxError) /\
     main_reports input (Uncaught SyntaxError)) /\
  is_ParsingError SyntaxError = false.
Proof.
  split; [|reflexivity].
  assert (Hd : forall input, input = "." \/ input = "1..2" ->
            answers digits (Context_init input 0) (Raise SyntaxError)).
  { intros input [->| ->];
      (apply (answers_run digits 10%nat);
       [intros m Hm; apply digits_mono, Hm | vm_compute; reflexivity | discriminate]). }
  intros input Hin. pose proof (Hd input Hin) as Ha.
  refine (conj _ (conj _ (conj Ha (conj _ (conj _ _))))).
  - destruct Hin as [->| ->]; reflexivity.
  - destruct Hin as [->| ->]; reflexivity.
  - destruct Ha as [_ [n Hn]]. exists n. intros fuel b Hle.
    apply Parser_or_passes; [apply Hn, Hle | reflexivity].
  - destruct Hin as [->| ->]; run_parse 20%nat.
  - destruct Hin as [->| ->]; run_main 20%nat.
Qed.

Lemma C10_witness :
  ("1..2" = "." \/ "1..2" = "1..2") /\
  py_eval "1..2" = inl SyntaxError /\
  parses_to "1..2" (Failed SyntaxError).
Proof.
  pose proof (proj1 C10_digits_raises_syntax_error "1..2" (or_intror eq_refl)) as H.
  split; [right; reflexivity|].
  split; [exact (proj1 (proj2 H)) | exact (proj1 (proj2 (proj2 (proj2 (proj2 H)))))].
Defined.

Lemma term_mono (n m : nat) : (n <= m)%nat -> psettles (term n) (term m).
Proof. intros Hle; apply (grammar_mono n m Hle). Qed.

Lemma factor_mono (n m : nat) : (n <= m)%nat -> psettles (factor n) (factor m).
Proof. intros Hle; apply (grammar_mono n m Hle). Qed.

(** C4: [a | b] runs [a] on the cursor it is given.  When [a] succeeds
    its outcome is the result whatever [b] is; when [a] raises a
    [ParsingError], [b] is run on that same cursor; when [b] raises as well,
    the error of [b] is the one that comes out. *)
Theorem C4_ordered_choice {A} (a b : Parser A) (c : Context.t) :
  (forall v c', a c = Ok v c' -> forall b' : Parser A, Parser_or a b' c = Ok v c') /\
  (forall msg k, a c = Raise (ParsingError msg k) -> Parser_or a b c = b c) /\
  (forall msg k e, a c = Raise (ParsingError msg k) -> b c = Raise e ->
     Parser_or a b c = Raise e).
Proof.
  refine (conj _ (conj _ _)).
  - intros v c' H b'. apply Parser_or_success, H.
  - intros msg k H. apply (Parser_or_retry a b c k msg H).
  - intros msg k e H Hb. rewrite (Parser_or_retry a b c k msg H). exact Hb.
Qed.

Lemma C4_witness :
  let a := String_ "ab" in
  let b := String_ "b" in
  let c := Context_init "ac" 0 in
  a c = Raise (ParsingError "Unexpected Char: c" (Context.mk "ac" 1)) /\
  b c = Raise (ParsingError "Unexpected Char: a" c) /\
  Parser_or a b c = Raise (ParsingError "Unexpected Char: a" c).
Proof.
  intros a b c.
  split; [reflexivity|]. split; [reflexivity|].
  apply (proj2 (proj2 (C4_ordered_choice a b c))
           "Unexpected Char: c" (Context.mk "ac" 1)); reflexivity.
Defined.

(** C5: on ["1/0"] the three parsers that [mulop] runs in sequence all
    succeed and use up the input, and applying the division then raises
    [ZeroDivisionError].  It is not a [ParsingError]; the choice in [term]
    lets it through whatever its second alternative is, as [|] does with
    every exception other than [ParsingError]; [parse] fails with it and
    [main] does not catch it. *)
Theorem C5_division_by_zero :
  let c0 := Context_init "1/0" 0 in
  let c1 := Context.mk "1/0" 1 in
  let c2 := Context.mk "1/0" 2 in
  let c3 := Context.mk "1/0" 3 in
  answers factor c0 (Ok (VInt 1) c1) /\
  answers (fun fuel => Parser_or (times fuel) (divide fuel)) c1 (Ok py_truediv c2) /\
  answers term c2 (Ok (VInt 0) c3) /\
  Context_rest_str c3 = "" /\
  py_truediv (VInt 1) (VInt 0) = inl ZeroDivisionError /\
  is_ParsingError ZeroDivisionError = false /\
  (exists n, forall fuel b, (n <= fuel)%nat ->
     Parser_or (mulop fuel (factor fuel) (term fuel)) b c0 = Raise ZeroDivisionError) /\
  (forall A (a b : Parser A) c e,
     a c = Raise e -> is_ParsingError e = false -> Parser_or a b c = Raise e) /\
  parses_to "1/0" (Failed ZeroDivisionError) /\
  main_reports "1/0" (Uncaught ZeroDivisionError).
Proof.
  intros c0 c1 c2 c3.
  refine (conj _ (conj _ (conj _ (conj _ (conj _ (conj _ (conj _ (conj _ (conj _ _))))))))).
  - apply (answers_run factor 10%nat);
      [intros m Hm; apply factor_mono, Hm | vm_compute; reflexivity | discriminate].
  - apply (answers_run (fun fuel => Parser_or (times fuel) (divide fuel)) 10%nat);
      [intros m Hm; apply mul_symbol_mono, Hm | reflexivity | discriminate].
  - apply (answers_run term 10%nat);
      [intros m Hm; apply term_mono, Hm | vm_compute; reflexivity | discriminate].
  - reflexivity.
  - reflexivity.
  - reflexivity.
  - exists 10%nat. intros fuel b Hle. apply Parser_or_passes; [|reflexivity].
    destruct (mulop_mono (factor 10) (factor fuel) (term 10) (term fuel) 10 fuel Hle
                (factor_mono _ _ Hle) (term_mono _ _ Hle) c0) as [H|H].
    + vm_compute in H. discriminate H.
    + rewrite H. vm_compute. reflexivity.
  - intros A a b c e. apply Parser_or_passes.
  - run_parse 20%nat.
  - run_main 20%nat.
Qed.

Lemma C5_witness :
  let a : Parser pyval := mulop 10 (factor 10) (term 10) in
  let c := Context_init "1/0" 0 in
  a c = Raise ZeroDivisionError /\
  is_ParsingError ZeroDivisionError = false /\
  Parser_or a (factor 10) c = Raise ZeroDivisionError.
Proof.
  intros a c.
  split; [vm_compute; reflexivity|]. split; [reflexivity|].
  apply (proj1 (proj2 (proj2 (proj2 (proj2 (proj2 (proj2 (proj2
           C5_division_by_zero)))))))); [vm_compute; reflexivity | reflexivity].
Defined.

(** ** End of input *)

Lemma Context_at_end (c : Context.t) :
  py_len (Context.s c) <= Context.pos c -> Context_at c = inr None.
Proof.
  intros H. unfold Context_at.
  destruct (Context.pos c >=? py_len (Context.s c)) eqn:E; [reflexivity|lia].
Qed.

Lemma Context_pick_end (c : Context.t) :
  py_len (Context.s c) <= Context.pos c ->
  Context_pick c = inl (ParsingError "Error" c).
Proof. intros H. unfold Context_pick. rewrite (Context_at_end c H). reflexivity. Qed.

(** C7, as the code has it: at a cursor whose position is the end of the
    input, [pick] raises a [ParsingError] that carries that cursor, and
    its message is ["Error"]. *)
Theorem C7_pick_at_end (c : Context.t) :
  Context.pos c = py_len (Context.s c) ->
  Context_pick c = inl (ParsingError "Error" c) /\
  Parser_pick c = Raise (ParsingError "Error" c).
Proof.
  intros H. assert (Hp := Context_pick_end c ltac:(lia)).
  split; [exact Hp|]. unfold Parser_pick. rewrite Hp. reflexivity.
Qed.

Lemma C7_witness :
  let c := Context_init "12" 2 in
  Context.pos c = py_len (Context.s c) /\
  Context_pick c = inl (ParsingError "Error" c).
Proof.
  intros c. split; [reflexivity|].
  apply (C7_pick_at_end c). reflexivity.
Defined.

(** C7 as the specification words it fails: the message is not
    ["unexpected end of input"]. *)
Lemma C7_counterexample :
  ~ (forall c : Context.t,
       Context.pos c = py_len (Context.s c) ->
       Context_pick c = inl (ParsingError "unexpected end of input" c)).
Proof.
  intros H. specialize (H (Context_init "12" 2) eq_refl).
  vm_compute in H. discriminate H.
Qed.

(** ** Repetition *)

Lemma Many_unfold {A} (p : Parser A) (fuel : nat) :
  Many (S fuel) p = Parser_or (many1 fuel p) (Parser_ret []).
Proof. reflexivity. Qed.

Section Repetition.
Context {A : Type} (p : Parser A).
(** The cursors under consideration: all of them, or those of some
    kind that [p] stays within. *)
Variable I : Context.t -> Prop.
Hypothesis p_stays : forall c a c', I c -> p c = Ok a c' -> I c'.
Hypothesis p_fails_by_ParsingError :
  forall c e, I c -> p c = Raise e -> is_ParsingError e = true.

Lemma Many_no_raise (fuel : nat) :
  forall c e, I c -> Many fuel p c <> Raise e.
Proof.
  induction fuel as [|fuel IH]; intros c e Hc; [discriminate|].
  rewrite Many_unfold. unfold Parser_or, many1, Parser_bind.
  destruct (p c) as [a c'|e'|] eqn:Ep.
  - pose proof (IH c' e (p_stays _ _ _ Hc Ep)) as Hn.
    destruct (Many fuel p c') as [xs c''|e''|] eqn:Em.
    + discriminate.
    + pose proof (IH c' e'' (p_stays _ _ _ Hc Ep)). congruence.
    + discriminate.
  - pose proof (p_fails_by_ParsingError _ _ Hc Ep) as He.
    destruct e'; try discriminate He. discriminate.
  - discriminate.
Qed.

Lemma many1_raise_iff (fuel : nat) (c : Context.t) :
  I c -> forall e, many1 fuel p c = Raise e <-> p c = Raise e.
Proof.
  intros Hc e. unfold many1, Parser_bind.
  destruct (p c) as [a c'|e'|] eqn:Ep.
  - pose proof (Many_no_raise fuel c' e (p_stays _ _ _ Hc Ep)) as Hn.
    destruct (Many fuel p c') as [xs c''|e''|]; split; intros H;
      try discriminate H; congruence.
  - split; intros H; congruence.
  - split; intros H; discriminate H.
Qed.

Lemma Many_after_many1_raise (fuel : nat) (c : Context.t) (e : exn) :
  I c -> many1 fuel p c = Raise e -> Many (S fuel) p c = Ok [] c.
Proof.
  intros Hc H. rewrite Many_unfold. unfold Parser_or. rewrite H.
  apply (many1_raise_iff fuel c Hc) in H.
  pose proof (p_fails_by_ParsingError _ _ Hc H) as He.
  destruct e; try discriminate He. reflexivity.
Qed.
End Repetition.

(** C8: let [p] raise nothing but [ParsingError] (on all cursors, or on
    a kind [I] of cursors that [p] stays within).  Then [Many p] raises
    nothing, with any amount of fuel; when [many1 p] raises, [Many p]
    answers the empty list at the cursor it was given; and [many1 p]
    raises exactly when [p] itself raises at that cursor. *)
Theorem C8_many_never_fails {A} (p : Parser A) (I : Context.t -> Prop) :
  (forall c a c', I c -> p c = Ok a c' -> I c') ->
  (forall c e, I c -> p c = Raise e -> is_ParsingError e = true) ->
  forall fuel c, I c ->
    (forall e, Many fuel p c <> Raise e) /\
    (forall e, many1 fuel p c = Raise e -> Many (S fuel) p c = Ok [] c) /\
    ((exists e, many1 fuel p c = Raise e) <-> (exists e, p c = Raise e)).
Proof.
  intros Hstay Hfail fuel c Hc. refine (conj _ (conj _ _)).
  - intros e. apply (Many_no_raise p I Hstay Hfail fuel c e Hc).
  - intros e. apply (Many_after_many1_raise p I Hstay Hfail fuel c e Hc).
  - split; intros [e He]; exists e;
      apply (many1_raise_iff p I Hstay Hfail fuel c Hc e); exact He.
Qed.

(** ** Cursors stay inside their text *)

Lemma String_get_inside (x : string) (n : nat) :
  (n < String.length x)%nat -> exists a, String.get n x = Some a.
Proof.
  revert n; induction x as [|b x IH]; intros n H; simpl in H; [lia|].
  destruct n as [|n]; simpl; [exists b; reflexivity | apply IH; lia].
Qed.

Lemma Context_pick_inside (c : Context.t) :
  0 <= Context.pos c -> Context.pos c < py_len (Context.s c) ->
  exists ch, Context_pick c = inr ch.
Proof.
  intros H0 H1. unfold Context_pick, Context_at, py_getitem.
  destruct (Context.pos c >=? py_len (Context.s c)) eqn:E; [lia|].
  replace ((0 <=? Context.pos c) && (Context.pos c <? py_len (Context.s c)))
    with true by (symmetry; apply andb_true_iff; split; lia).
  destruct (String_get_inside (Context.s c) (Z.to_nat (Context.pos c))) as [a Ha].
  { unfold py_len in H1. lia. }
  rewrite Ha. exists a; reflexivity.
Qed.

Lemma Context_pick_success (c : Context.t) (ch : ascii) :
  Context_pick c = inr ch -> Context.pos c < py_len (Context.s c).
Proof.
  unfold Context_pick, Context_at. intros H.
  destruct (Context.pos c >=? py_len (Context.s c)) eqn:E; [discriminate H | lia].
Qed.

Lemma cursor_ok_next (c : Context.t) :
  cursor_ok c -> Context.pos c < py_len (Context.s c) -> cursor_ok (Context_next c).
Proof.
  intros [Hs Hp] Hlt. rewrite (Context_next_ok c Hs). split; simpl; [exact Hs | lia].
Qed.

Lemma Sat_success (pr : ascii -> bool) (c c' : Context.t) (a : ascii) :
  Sat pr c = Ok a c' ->
  Context_pick c = inr a /\ pr a = true /\ c' = Context_next c.
Proof.
  unfold Sat. destruct (Context_pick c) as [e|ch]; [discriminate|].
  destruct (pr ch) eqn:E; [|discriminate].
  intros H; injection H as <- <-. auto.
Qed.

Lemma Sat_raises_ParsingError (pr : ascii -> bool) (c : Context.t) (e : exn) :
  cursor_ok c -> Sat pr c = Raise e -> is_ParsingError e = true.
Proof.
  intros [_ Hp] H. unfold Sat in H.
  destruct (Z.eq_dec (Context.pos c) (py_len (Context.s c))) as [Heq|Hne].
  - rewrite (Context_pick_end c ltac:(lia)) in H. injection H as <-. reflexivity.
  - destruct (Context_pick_inside c ltac:(lia) ltac:(lia)) as [ch Hch].
    rewrite Hch in H. destruct (pr ch); [discriminate H|].
    injection H as <-. reflexivity.
Qed.

Lemma Sat_no_diverge (pr : ascii -> bool) (c : Context.t) : Sat pr c <> Diverge.
Proof.
  unfold Sat. destruct (Context_pick c) as [e|ch]; [discriminate|].
  destruct (pr ch); discriminate.
Qed.

(** *** What a successful parse does to the cursor

    The lemmas of this section hold for any relation [R] between the
    cursor a parser is given and the cursor it hands back that is
    reflexive and transitive on well-formed cursors, keeps them
    well-formed, and relates a cursor to its successor. *)
Section Respects.
Variable R : Context.t -> Context.t -> Prop.
Hypothesis R_refl : forall c, cursor_ok c -> R c c.
Hypothesis R_trans : forall c1 c2 c3, R c1 c2 -> R c2 c3 -> R c1 c3.
Hypothesis R_ok : forall c c', cursor_ok c -> R c c' -> cursor_ok c'.
Hypothesis R_next :
  forall c, cursor_ok c -> Context.pos c < py_len (Context.s c) ->
    R c (Context_next c).

Lemma respects_Sat (pr : ascii -> bool) : respects R (Sat pr).
Proof.
  intros c a c' Hc H. apply Sat_success in H as (Hpick & _ & ->).
  apply R_next; [exact Hc | apply (Context_pick_success c a Hpick)].
Qed.

Lemma respects_Char (ch : ascii) : respects R (Char ch).
Proof. apply respects_Sat. Qed.

Lemma respects_ret {A} (a : A) : respects R (Parser_ret a).
Proof.
  intros c v c' Hc H. unfold Parser_ret in H. injection H as _ <-. apply R_refl, Hc.
Qed.

Lemma respects_bind {A B} (p : Parser A) (f : A -> Parser B) :
  respects R p -> (forall a, respects R (f a)) -> respects R (Parser_bind p f).
Proof.
  intros Hp Hf c b c' Hc H. unfold Parser_bind in H.
  destruct (p c) as [a c1| |] eqn:E; try discriminate H.
  pose proof (Hp c a c1 Hc E) as H1.
  apply (R_trans c c1 c' H1), (Hf a c1 b c' (R_ok c c1 Hc H1) H).
Qed.

Lemma respects_or {A} (a b : Parser A) :
  respects R a -> respects R b -> respects R (Parser_or a b).
Proof.
  intros Ha Hb c v c' Hc H. unfold Parser_or in H.
  destruct (a c) as [v1 c1|e|] eqn:E.
  - injection H as <- <-. apply (Ha c v1 c1 Hc E).
  - destruct e; try discriminate H. apply (Hb c v c' Hc H).
  - discriminate H.
Qed.

Lemma respects_ret_or_raise {A} (r : exn + A) : respects R (ret_or_raise r).
Proof.
  destruct r as [e|v]; simpl; [|apply respects_ret].
  intros c a c' _ H; discriminate H.
Qed.

Lemma respects_String_loop (chars : string) : respects R (String_loop chars).
Proof.
  induction chars as [|ch chars IH]; simpl; [apply respects_ret|].
  apply respects_bind; [apply respects_Char | intros _; exact IH].
Qed.

Lemma respects_String (x : string) : respects R (String_ x).
Proof.
  apply respects_bind; [apply respects_String_loop | intros _; apply respects_ret].
Qed.

Lemma respects_Many {A} (p : Parser A) (fuel : nat) :
  respects R p -> respects R (Many fuel p).
Proof.
  intros Hp. induction fuel as [|fuel IH]; [intros c a c' _ H; discriminate H|].
  simpl. apply respects_or; [|apply respects_ret].
  apply respects_bind; [exact Hp|]; intros x.
  apply respects_bind; [exact IH|]; intros xs. apply respects_ret.
Qed.

Lemma respects_many1 {A} (p : Parser A) (fuel : nat) :
  respects R p -> respects R (many1 fuel p).
Proof.
  intros Hp. apply respects_bind; [exact Hp|]; intros x.
  apply respects_bind; [apply respects_Many, Hp|]; intros xs. apply respects_ret.
Qed.

Lemma respects_space (fuel : nat) : respects R (space fuel).
Proof. apply respects_Many, respects_Sat. Qed.

Lemma respects_token {A} (p : Parser A) (fuel : nat) :
  respects R p -> respects R (token fuel p).
Proof.
  intros Hp. apply respects_bind; [exact Hp|]; intros a.
  apply respects_bind; [apply respects_space|]; intros _. apply respects_ret.
Qed.

Lemma respects_Symb (fuel : nat) (x : string) : respects R (Symb fuel x).
Proof. apply respects_token, respects_String. Qed.

Lemma respects_operator (pop : Parser binop) (pn1 pn2 : Parser pyval) :
  respects R pop -> respects R pn1 -> respects R pn2 ->
  respects R (operator pop pn1 pn2).
Proof.
  intros Ho H1 H2. apply respects_bind; [exact H1|]; intros n1.
  apply respects_bind; [exact Ho|]; intros op.
  apply respects_bind; [exact H2|]; intros n2. apply respects_ret_or_raise.
Qed.

Lemma respects_opsym (fuel : nat) (x : string) (op : binop) :
  respects R (Symb fuel x ;; Parser_ret op).
Proof. apply respects_bind; [apply respects_Symb | intros _; apply respects_ret]. Qed.

Lemma respects_addop (fuel : nat) (pn1 pn2 : Parser pyval) :
  respects R pn1 -> respects R pn2 -> respects R (addop fuel pn1 pn2).
Proof.
  intros H1 H2. apply respects_operator; [|exact H1|exact H2].
  apply respects_or; apply respects_opsym.
Qed.

Lemma respects_mulop (fuel : nat) (pn1 pn2 : Parser pyval) :
  respects R pn1 -> respects R pn2 -> respects R (mulop fuel pn1 pn2).
Proof.
  intros H1 H2. apply respects_operator; [|exact H1|exact H2].
  apply respects_or; apply respects_opsym.
Qed.

Lemma respects_digits (fuel : nat) : respects R (digits fuel).
Proof.
  intros c v c' Hc H. unfold digits in H.
  set (one := Sat (fun z => py_in z "1234567890.")) in H.
  destruct (token fuel (many1 fuel one) c) as [x c1| |] eqn:E; try discriminate H.
  destruct (py_eval (py_join x)); [discriminate H|]. injection H as _ <-.
  apply (respects_token (many1 fuel one) fuel
           (respects_many1 one fuel (respects_Sat _)) c x c1 Hc E).
Qed.

Lemma respects_grammar (fuel : nat) :
  respects R (expr fuel) /\ respects R (term fuel) /\ respects R (factor fuel).
Proof.
  induction fuel as [|fuel (He & Ht & Hf)].
  - refine (conj _ (conj _ _)); intros c a c' _ H; discriminate H.
  - refine (conj _ (conj _ _)); simpl.
    + apply respects_or; [apply respects_addop|]; assumption.
    + apply respects_or; [apply respects_mulop|]; assumption.
    + apply respects_or; [apply respects_digits|].
      apply respects_bind; [apply respects_Symb|]; intros _.
      apply respects_bind; [exact He|]; intros n.
      apply respects_bind; [apply respects_Symb|]; intros _. apply respects_ret.
Qed.
End Respects.

(** The two relations the development uses. *)

Lemma in_text_refl (c : Context.t) : cursor_ok c -> in_text c c.
Proof. intros [_ H]. split; [reflexivity | exact H]. Qed.

Lemma in_text_trans (c1 c2 c3 : Context.t) :
  in_text c1 c2 -> in_text c2 c3 -> in_text c1 c3.
Proof. intros [H1 _] [H2 H3]. split; [congruence | exact H3]. Qed.

Lemma in_text_ok (c c' : Context.t) : cursor_ok c -> in_text c c' -> cursor_ok c'.
Proof. intros [Hs _] [H1 H2]. split; [rewrite H1; exact Hs | exact H2]. Qed.

Lemma in_text_next (c : Context.t) :
  cursor_ok c -> Context.pos c < py_len (Context.s c) -> in_text c (Context_next c).
Proof.
  intros [Hs Hp] Hlt. rewrite (Context_next_ok c Hs). split; simpl; [reflexivity | lia].
Qed.

Lemma onward_refl (c : Context.t) : cursor_ok c -> onward c c.
Proof. intros [_ H]. split; [reflexivity | lia]. Qed.

Lemma onward_trans (c1 c2 c3 : Context.t) :
  onward c1 c2 -> onward c2 c3 -> onward c1 c3.
Proof. intros [H1 H1'] [H2 H3]. split; [congruence | lia]. Qed.

Lemma onward_ok (c c' : Context.t) : cursor_ok c -> onward c c' -> cursor_ok c'.
Proof. intros [Hs Hp] [H1 H2]. split; [rewrite H1; exact Hs | lia]. Qed.

Lemma onward_next (c : Context.t) :
  cursor_ok c -> Context.pos c < py_len (Context.s c) -> onward c (Context_next c).
Proof.
  intros [Hs Hp] Hlt. rewrite (Context_next_ok c Hs). split; simpl; [reflexivity | lia].
Qed.

Lemma keeps_cursor_ok {A} (p : Parser A) (c c' : Context.t) (a : A) :
  keeps_cursor p -> cursor_ok c -> p c = Ok a c' -> cursor_ok c'.
Proof. intros Hk Hc H. apply (in_text_ok c c' Hc (Hk c a c' Hc H)). Qed.

Lemma keeps_Sat (pr : ascii -> bool) : keeps_cursor (Sat pr).
Proof. apply respects_Sat, in_text_next. Qed.

Lemma keeps_or {A} (a b : Parser A) :
  keeps_cursor a -> keeps_cursor b -> keeps_cursor (Parser_or a b).
Proof. apply respects_or. Qed.

Lemma keeps_bind {A B} (p : Parser A) (f : A -> Parser B) :
  keeps_cursor p -> (forall a, keeps_cursor (f a)) -> keeps_cursor (Parser_bind p f).
Proof. apply respects_bind; [apply in_text_trans | apply in_text_ok]. Qed.

Lemma keeps_repetition {A} (p : Parser A) (fuel : nat) :
  keeps_cursor p ->
  keeps_cursor (Many fuel p) /\ keeps_cursor (many1 fuel p) /\
  keeps_cursor (token fuel p).
Proof.
  intros Hp. refine (conj _ (conj _ _)).
  - apply (respects_Many in_text in_text_refl in_text_trans in_text_ok), Hp.
  - apply (respects_many1 in_text in_text_refl in_text_trans in_text_ok), Hp.
  - apply (respects_token in_text in_text_refl in_text_trans in_text_ok in_text_next), Hp.
Qed.

Lemma keeps_grammar (fuel : nat) :
  keeps_cursor (digits fuel) /\ keeps_cursor (factor fuel) /\
  keeps_cursor (term fuel) /\ keeps_cursor (expr fuel).
Proof.
  destruct (respects_grammar in_text in_text_refl in_text_trans in_text_ok
              in_text_next fuel) as (He & Ht & Hf).
  refine (conj _ (conj Hf (conj Ht He))).
  apply (respects_digits in_text in_text_refl in_text_trans in_text_ok in_text_next).
Qed.

Lemma respects_seq {A B} (R1 R2 R3 : Context.t -> Context.t -> Prop)
    (p : Parser A) (f : A -> Parser B) :
  (forall c c', cursor_ok c -> R1 c c' -> cursor_ok c') ->
  (forall c1 c2 c3, R1 c1 c2 -> R2 c2 c3 -> R3 c1 c3) ->
  respects R1 p -> (forall a, respects R2 (f a)) -> respects R3 (Parser_bind p f).
Proof.
  intros Hok Htrans Hp Hf c b c' Hc H. unfold Parser_bind in H.
  destruct (p c) as [a c1| |] eqn:E; try discriminate H.
  pose proof (Hp c a c1 Hc E) as H1.
  apply (Htrans c c1 c' H1), (Hf a c1 b c' (Hok c c1 Hc H1) H).
Qed.

Lemma further_onward (c c' : Context.t) : further c c' -> onward c c'.
Proof. intros [H1 H2]. split; [exact H1 | lia]. Qed.

Lemma further_then_onward (c1 c2 c3 : Context.t) :
  further c1 c2 -> onward c2 c3 -> further c1 c3.
Proof. intros [H1 H1'] [H2 H3]. split; [congruence | lia]. Qed.

Lemma further_ok (c c' : Context.t) : cursor_ok c -> further c c' -> cursor_ok c'.
Proof. intros Hc H. apply (onward_ok c c' Hc), further_onward, H. Qed.

Lemma further_next (c : Context.t) :
  cursor_ok c -> Context.pos c < py_len (Context.s c) -> further c (Context_next c).
Proof.
  intros [Hs Hp] Hlt. rewrite (Context_next_ok c Hs). split; simpl; [reflexivity | lia].
Qed.

Lemma onward_remaining (c c' : Context.t) :
  onward c c' -> (remaining c' <= remaining c)%nat.
Proof. intros [Hs Hp]. unfold remaining. rewrite Hs. lia. Qed.

Lemma further_remaining (c c' : Context.t) :
  further c c' -> (remaining c' < remaining c)%nat.
Proof. intros [Hs Hp]. unfold remaining. rewrite Hs in *. lia. Qed.

(** C9: each parser of the grammar, run on a cursor whose position lies
    between 0 and the length of its text, hands back on success a cursor
    with the same text and a position in that range (the combinators do
    so when the parsers they are given do); [next] leaves the cursor it
    is called on as it is and builds a cursor one position further. *)
Theorem C9_cursor_invariant :
  (forall pr, keeps_cursor (Sat pr)) /\
  (forall ch, keeps_cursor (Char ch)) /\
  (forall x, keeps_cursor (String_ x)) /\
  (forall A (a b : Parser A),
     keeps_cursor a -> keeps_cursor b -> keeps_cursor (Parser_or a b)) /\
  (forall A B (p : Parser A) (f : A -> Parser B),
     keeps_cursor p -> (forall a, keeps_cursor (f a)) ->
     keeps_cursor (Parser_bind p f)) /\
  (forall A (p : Parser A) fuel,
     keeps_cursor p ->
     keeps_cursor (Many fuel p) /\ keeps_cursor (many1 fuel p) /\
     keeps_cursor (token fuel p)) /\
  (forall fuel,
     keeps_cursor (digits fuel) /\ keeps_cursor (factor fuel) /\
     keeps_cursor (term fuel) /\ keeps_cursor (expr fuel)) /\
  (forall c, cursor_ok c ->
     Context_next c = Context.mk (Context.s c) (Context.pos c + 1)) /\
  (forall s0 p0, 0 <= p0 <= py_len (py_strip s0) -> cursor_ok (Context_init s0 p0)) /\
  (forall c, cursor_ok c -> c = Context_init (Context.s c) (Context.pos c)).
Proof.
  refine (conj keeps_Sat (conj _ (conj _
           (conj (@keeps_or) (conj (@keeps_bind)
              (conj (@keeps_repetition) (conj keeps_grammar
                 (conj _ (conj Context_init_ok cursor_ok_constructed))))))))).
  - intros ch. apply keeps_Sat.
  - apply (respects_String in_text in_text_refl in_text_trans in_text_ok in_text_next).
  - intros c [Hs _]. apply Context_next_ok, Hs.
Qed.

Lemma C9_witness :
  let c := Context_init " ( 1 + 2 ) * 3 ) " 0 in
  let c' := Context.mk "( 1 + 2 ) * 3 )" 14 in
  cursor_ok c /\
  expr 20 c = Ok (VInt 9) c' /\
  Context.s c' = Context.s c /\ 0 <= Context.pos c' <= py_len (Context.s c').
Proof.
  intros c c'.
  assert (Hc : cursor_ok c).
  { apply (proj1 (proj2 (proj2 (proj2 (proj2 (proj2 (proj2 (proj2 (proj2
             C9_cursor_invariant))))))))). vm_compute. split; discriminate. }
  assert (Hrun : expr 20 c = Ok (VInt 9) c') by (vm_compute; reflexivity).
  split; [exact Hc|]. split; [exact Hrun|].
  exact (proj2 (proj2 (proj2 (proj1 (proj2 (proj2 (proj2 (proj2 (proj2 (proj2
           C9_cursor_invariant)))))) 20%nat))) c (VInt 9) c' Hc Hrun).
Defined.

(** Repetition of a parser that consumes input comes to an end. *)
Lemma Many_terminates {A} (p : Parser A) :
  advances p ->
  (forall c, cursor_ok c -> p c <> Diverge) ->
  (forall c e, cursor_ok c -> p c = Raise e -> is_ParsingError e = true) ->
  forall fuel c, cursor_ok c -> (remaining c < fuel)%nat ->
    exists xs c', Many fuel p c = Ok xs c'.
Proof.
  intros Hadv Htot Hfail.
  induction fuel as [|fuel IH]; intros c Hc Hlt; [lia|].
  rewrite Many_unfold. unfold Parser_or, many1, Parser_bind.
  destruct (p c) as [a c1|e|] eqn:Ep.
  - pose proof (Hadv c a c1 Hc Ep) as Hf.
    destruct (IH c1 (further_ok c c1 Hc Hf)) as (xs & c' & Hm).
    { pose proof (further_remaining c c1 Hf). lia. }
    rewrite Hm. do 2 eexists; reflexivity.
  - pose proof (Hfail c e Hc Ep) as He. destruct e; try discriminate He.
    do 2 eexists; reflexivity.
  - destruct (Htot c Hc Ep).
Qed.

Lemma C8_witness :
  let p := Sat is_digit in
  let c := Context_init "a12" 0 in
  cursor_ok c /\
  many1 5 p c = Raise (ParsingError "Unexpected Char: a" c) /\
  Many 6 p c = Ok [] c.
Proof.
  intros p c.
  assert (Hc : cursor_ok c) by (apply Context_init_ok; vm_compute; split; discriminate).
  assert (Hrun : many1 5 p c = Raise (ParsingError "Unexpected Char: a" c))
    by reflexivity.
  split; [exact Hc|]. split; [exact Hrun|].
  apply (proj1 (proj2 (C8_many_never_fails p cursor_ok
           (fun c0 a c1 => keeps_cursor_ok p c0 c1 a (keeps_Sat is_digit))
           (fun c0 e => Sat_raises_ParsingError is_digit c0 e) 5%nat c Hc)) _ Hrun).
Defined.

(** ** Reading a run of characters *)

Local Open Scope list_scope.

Lemma length_string_of_list (l : list ascii) :
  String.length (string_of_list_ascii l) = List.length l.
Proof. induction l as [|a l IH]; simpl; [reflexivity | rewrite IH; reflexivity]. Qed.

Lemma get_string_of_list (l : list ascii) (n : nat) :
  String.get n (string_of_list_ascii l) = nth_error l n.
Proof.
  revert n; induction l as [|a l IH]; intros [|n]; simpl; try reflexivity. apply IH.
Qed.

Lemma py_strip_no_space (l : list ascii) :
  forallb (fun a => negb (py_isspace a)) l = true ->
  py_strip (string_of_list_ascii l) = string_of_list_ascii l.
Proof.
  intros H. unfold py_strip.
  assert (Hl : py_lstrip (string_of_list_ascii l) = string_of_list_ascii l).
  { destruct l as [|a l]; [reflexivity|]. simpl in *.
    apply andb_true_iff in H as [Ha _]. apply negb_true_iff in Ha.
    rewrite Ha. reflexivity. }
  rewrite Hl. clear Hl.
  induction l as [|a l IH]; [reflexivity|]. simpl in H.
  apply andb_true_iff in H as [Ha Hrest]. apply negb_true_iff in Ha.
  change (string_of_list_ascii (a :: l)) with (String a (string_of_list_ascii l)).
  rewrite (py_rstrip_cons a _ Ha), (IH Hrest). reflexivity.
Qed.

Section Run.
Variable l : list ascii.
Variable text : string.
Hypothesis text_of_l : text = string_of_list_ascii l.
Hypothesis text_trimmed : py_strip text = text.

Lemma py_len_text : py_len text = Z.of_nat (List.length l).
Proof. unfold py_len. rewrite text_of_l, length_string_of_list. reflexivity. Qed.

Lemma pick_in_run (pre rest : list ascii) (a : ascii) :
  l = pre ++ a :: rest -> Context_pick (cursor_at text (List.length pre)) = inr a.
Proof.
  intros Hl. unfold Context_pick, Context_at, py_getitem, cursor_at. simpl.
  assert (Hlen : Z.of_nat (List.length pre) < py_len text).
  { rewrite py_len_text, Hl, length_app. simpl. lia. }
  destruct (Z.of_nat (List.length pre) >=? py_len text) eqn:E; [lia|].
  replace ((0 <=? Z.of_nat (List.length pre)) && (Z.of_nat (List.length pre) <? py_len text))
    with true by (symmetry; apply andb_true_iff; split; lia).
  rewrite Nat2Z.id. rewrite text_of_l at 1. rewrite get_string_of_list, Hl.
  rewrite nth_error_app2 by lia. rewrite Nat.sub_diag. reflexivity.
Qed.

Lemma next_in_run (k : nat) : Context_next (cursor_at text k) = cursor_at text (S k).
Proof.
  unfold cursor_at. rewrite Context_next_ok by exact text_trimmed. simpl.
  f_equal. lia.
Qed.

Lemma Sat_in_run (pr : ascii -> bool) (pre rest : list ascii) (a : ascii) :
  l = pre ++ a :: rest -> pr a = true ->
  Sat pr (cursor_at text (List.length pre)) = Ok a (cursor_at text (S (List.length pre))).
Proof.
  intros Hl Ha. unfold Sat. rewrite (pick_in_run pre rest a Hl), Ha, next_in_run.
  reflexivity.
Qed.

Lemma Many_Sat_run (pr : ascii -> bool) (suffix : list ascii) :
  forall (pre : list ascii) (fuel : nat),
    l = pre ++ suffix -> forallb pr suffix = true ->
    (List.length suffix < fuel)%nat ->
    Many fuel (Sat pr) (cursor_at text (List.length pre)) = Ok suffix (cursor_at text (List.length l)).
Proof.
  induction suffix as [|a rest IH]; intros pre fuel Hl Hall Hfuel;
    (destruct fuel as [|fuel]; [simpl in Hfuel; lia|]);
    rewrite Many_unfold; unfold Parser_or, many1, Parser_bind.
  - rewrite app_nil_r in Hl. subst pre.
    unfold Sat. rewrite Context_pick_end; [reflexivity|].
    unfold cursor_at; simpl. rewrite py_len_text. lia.
  - simpl in Hall. apply andb_true_iff in Hall as [Ha Hrest].
    rewrite (Sat_in_run pr pre rest a Hl Ha).
    specialize (IH (pre ++ [a]) fuel).
    rewrite length_app, Nat.add_1_r in IH.
    rewrite IH; [reflexivity | | exact Hrest | simpl in Hfuel; lia].
    rewrite <- app_assoc. exact Hl.
Qed.

Lemma many1_Sat_run (pr : ascii -> bool) (a : ascii) (rest : list ascii)
    (fuel : nat) :
  l = a :: rest -> forallb pr l = true -> (List.length rest < fuel)%nat ->
  many1 fuel (Sat pr) (cursor_at text 0) = Ok l (cursor_at text (List.length l)).
Proof.
  intros Hl Hall Hfuel. unfold many1, Parser_bind.
  rewrite Hl in Hall. simpl in Hall. apply andb_true_iff in Hall as [Ha Hrest].
  rewrite (Sat_in_run pr [] rest a Hl Ha : Sat pr (cursor_at text 0) = Ok a (cursor_at text 1)).
  rewrite (Many_Sat_run pr rest [a] fuel Hl Hrest Hfuel
           : Many fuel (Sat pr) (cursor_at text 1) = Ok rest (cursor_at text (List.length l))).
  rewrite <- Hl. reflexivity.
Qed.

Lemma space_at_end (fuel : nat) :
  (0 < fuel)%nat -> space fuel (cursor_at text (List.length l)) = Ok [] (cursor_at text (List.length l)).
Proof.
  intros Hfuel. unfold space.
  apply (Many_Sat_run _ [] l fuel); [symmetry; apply app_nil_r | reflexivity | exact Hfuel].
Qed.

Lemma token_many1_run (pr : ascii -> bool) (a : ascii) (rest : list ascii)
    (fuel : nat) :
  l = a :: rest -> forallb pr l = true -> (List.length rest < fuel)%nat ->
  token fuel (many1 fuel (Sat pr)) (cursor_at text 0) = Ok l (cursor_at text (List.length l)).
Proof.
  intros Hl Hall Hfuel. unfold token, Parser_bind.
  rewrite (many1_Sat_run pr a rest fuel Hl Hall Hfuel).
  rewrite space_at_end by lia. reflexivity.
Qed.
End Run.

(** ** Number literals *)

Lemma digit_not_dot (a : ascii) : is_digit a = true -> Ascii.eqb a "." = false.
Proof.
  intros H. destruct (Ascii.eqb_spec a ".") as [->|]; [discriminate H | reflexivity].
Qed.

Lemma digit_is_number_char (a : ascii) :
  is_digit a = true -> py_in a "1234567890." = true.
Proof.
  destruct a as [[] [] [] [] [] [] [] []]; intros H;
    solve [reflexivity | discriminate H].
Qed.

Lemma number_char_not_space (a : ascii) :
  py_in a "1234567890." = true -> negb (py_isspace a) = true.
Proof.
  destruct a as [[] [] [] [] [] [] [] []]; intros H;
    solve [reflexivity | discriminate H].
Qed.

Lemma span_digits_app (ds rest : list ascii) :
  forallb is_digit ds = true ->
  match rest with [] => True | b :: _ => is_digit b = false end ->
  span_digits (ds ++ rest) = (ds, rest).
Proof.
  intros Hds Hrest. induction ds as [|a ds IH]; simpl.
  - destruct rest as [|b rest]; [reflexivity|]. simpl. rewrite Hrest. reflexivity.
  - simpl in Hds. apply andb_true_iff in Hds as [Ha Hds].
    rewrite Ha, (IH Hds). reflexivity.
Qed.

Lemma span_digits_all (ds : list ascii) :
  forallb is_digit ds = true -> span_digits ds = (ds, []).
Proof.
  intros H. rewrite <- (app_nil_r ds) at 1. apply span_digits_app; [exact H | exact I].
Qed.

Lemma py_eval_int (ds : list ascii) :
  forallb is_digit ds = true -> decinteger_ok ds = true ->
  py_eval (string_of_list_ascii ds) = inr (VInt (int_of_digits ds)).
Proof.
  intros Hds Hok. unfold py_eval.
  rewrite list_ascii_of_string_of_list_ascii.
  destruct ds as [|a ds]; [discriminate Hok|].
  pose proof Hds as Hall. simpl in Hds. apply andb_true_iff in Hds as [Ha _].
  pose proof (digit_not_dot a Ha) as Hdot.
  change (string_of_list_ascii (a :: ds)) with (String a (string_of_list_ascii ds)).
  cbn [String.eqb]. rewrite Hdot. cbn [andb].
  rewrite (span_digits_all _ Hall), Hok. reflexivity.
Qed.

Lemma py_eval_float (ip fp : list ascii) :
  forallb is_digit ip = true -> forallb is_digit fp = true -> ip ++ fp <> [] ->
  py_eval (string_of_list_ascii (ip ++ "."%char :: fp)) =
  inr (VFloat (float_of_decimal ip fp)).
Proof.
  intros Hip Hfp Hne. unfold py_eval.
  rewrite list_ascii_of_string_of_list_ascii.
  destruct ip as [|a ip].
  - destruct fp as [|d fp]; [contradiction Hne; reflexivity|].
    pose proof Hfp as Hall. simpl in Hfp. apply andb_true_iff in Hfp as [Hd _].
    cbn [app string_of_list_ascii String.eqb]. rewrite (digit_not_dot d Hd).
    cbn [andb Ascii.eqb Bool.eqb]. rewrite (span_digits_all _ Hall). reflexivity.
  - pose proof Hip as Hall. simpl in Hip. apply andb_true_iff in Hip as [Ha _].
    pose proof (digit_not_dot a Ha) as Hdot.
    change (string_of_list_ascii ((a :: ip) ++ "."%char :: fp))
      with (String a (string_of_list_ascii (ip ++ "."%char :: fp))).
    cbn [String.eqb]. rewrite Hdot. cbn [andb].
    rewrite (span_digits_app (a :: ip) ("."%char :: fp) Hall eq_refl).
    rewrite (span_digits_all _ Hfp). cbn [app]. rewrite Hdot. reflexivity.
Qed.

(** [digits] on a text made of its characters only: the whole text goes
    to [eval]. *)
Lemma digits_run (l : list ascii) (fuel : nat) :
  l <> [] -> forallb (fun z => py_in z "1234567890.") l = true ->
  (List.length l <= fuel)%nat ->
  let text := string_of_list_ascii l in
  Context_init text 0 = Context.mk text 0 /\
  digits fuel (Context.mk text 0) =
  match py_eval text with
  | inr v => Ok v (Context.mk text (py_len text))
  | inl e => Raise e
  end.
Proof.
  intros Hne Hall Hfuel text.
  assert (Htrim : py_strip text = text).
  { apply py_strip_no_space. rewrite forallb_forall in *.
    intros a Ha. apply number_char_not_space, Hall, Ha. }
  split; [unfold Context_init; rewrite Htrim; reflexivity|].
  destruct l as [|a rest]; [contradiction Hne; reflexivity|].
  unfold digits.
  assert (Hrun : token fuel (many1 fuel (Sat (fun z => py_in z "1234567890.")))
                   (Context.mk text 0) =
                 Ok (a :: rest) (Context.mk text (py_len text))).
  { rewrite (py_len_text (a :: rest) text eq_refl).
    apply (token_many1_run (a :: rest) text eq_refl Htrim _ a rest fuel eq_refl Hall).
    simpl in Hfuel; lia. }
  rewrite Hrun. reflexivity.
Qed.

(** ** The grammar at the end of the input *)

Lemma Symb_at_end (fuel : nat) (ch : ascii) (x : string) (c : Context.t) :
  py_len (Context.s c) <= Context.pos c ->
  Symb fuel (String ch x) c = Raise (ParsingError "Error" c).
Proof.
  intros H. unfold Symb, token, String_, Parser_bind. simpl.
  unfold Parser_bind, Char, Sat. rewrite (Context_pick_end c H). reflexivity.
Qed.

Lemma operator_at_end (pop : Parser binop) (pn1 pn2 : Parser pyval)
    (c ce : Context.t) (v : pyval) :
  pn1 c = Ok v ce -> pop ce = Raise (ParsingError "Error" ce) ->
  operator pop pn1 pn2 c = Raise (ParsingError "Error" ce).
Proof. intros H1 Ho. unfold operator, Parser_bind. rewrite H1, Ho. reflexivity. Qed.

Lemma opsym_at_end (fuel : nat) (ch : ascii) (x : string) (op : binop)
    (c : Context.t) :
  py_len (Context.s c) <= Context.pos c ->
  (Symb fuel (String ch x) ;; Parser_ret op) c = Raise (ParsingError "Error" c).
Proof. intros H. unfold Parser_bind. rewrite (Symb_at_end fuel ch x c H). reflexivity. Qed.

Lemma expr_of_digits_at_end (fuel : nat) (c ce : Context.t) (v : pyval) :
  py_len (Context.s ce) <= Context.pos ce ->
  digits fuel c = Ok v ce -> expr (S (S (S fuel))) c = Ok v ce.
Proof.
  intros Hend Hd.
  assert (Hf : factor (S fuel) c = Ok v ce).
  { simpl. apply Parser_or_success, Hd. }
  assert (Ht : term (S (S fuel)) c = Ok v ce).
  { change (term (S (S fuel)))
      with (Parser_or (mulop (S fuel) (factor (S fuel)) (term (S fuel))) (factor (S fuel))).
    rewrite (Parser_or_retry _ _ c ce "Error"); [exact Hf|].
    apply (operator_at_end _ _ _ c ce v Hf).
    unfold times, divide.
    rewrite (Parser_or_retry _ _ ce ce "Error"); apply opsym_at_end, Hend. }
  change (expr (S (S (S fuel))))
    with (Parser_or (addop (S (S fuel)) (term (S (S fuel))) (expr (S (S fuel))))
            (term (S (S fuel)))).
  rewrite (Parser_or_retry _ _ c ce "Error"); [exact Ht|].
  apply (operator_at_end _ _ _ c ce v Ht).
  unfold plus, minus.
  rewrite (Parser_or_retry _ _ ce ce "Error"); apply opsym_at_end, Hend.
Qed.

Lemma expr_of_digits_raise (fuel : nat) (c : Context.t) (e : exn) :
  is_ParsingError e = false ->
  digits fuel c = Raise e -> expr (S (S (S fuel))) c = Raise e.
Proof.
  intros He Hd.
  assert (Hf : factor (S fuel) c = Raise e).
  { simpl. apply Parser_or_passes; assumption. }
  assert (Ht : term (S (S fuel)) c = Raise e).
  { change (term (S (S fuel)))
      with (Parser_or (mulop (S fuel) (factor (S fuel)) (term (S fuel))) (factor (S fuel))).
    apply Parser_or_passes; [|exact He].
    unfold mulop, operator, Parser_bind. rewrite Hf. reflexivity. }
  change (expr (S (S (S fuel))))
    with (Parser_or (addop (S (S fuel)) (term (S (S fuel))) (expr (S (S fuel))))
            (term (S (S fuel)))).
  apply Parser_or_passes; [|exact He].
  unfold addop, operator, Parser_bind. rewrite Ht. reflexivity.
Qed.

Lemma rest_str_at_end (text : string) :
  Context_rest_str (Context.mk text (py_len text)) = EmptyString.
Proof.
  unfold Context_rest_str, py_slice_from. simpl.
  assert (H : 0 <= py_len text) by (unfold py_len; lia).
  destruct (py_len text <? 0) eqn:E; [lia|].
  rewrite Z.min_id, Z.sub_diag. simpl.
  generalize (Z.to_nat (py_len text)). clear.
  induction text as [|a text IH]; intros [|n]; simpl; try reflexivity. apply IH.
Qed.

(** What [parse] answers on a text made of the characters of [digits]. *)
Lemma parse_number_text (l : list ascii) :
  l <> [] -> forallb (fun z => py_in z "1234567890.") l = true ->
  let text := string_of_list_ascii l in
  parses_to text
    match py_eval text with
    | inr v => Parsed v EmptyString
    | inl e => Failed e
    end.
Proof.
  intros Hne Hall text.
  assert (Hnp : forall e, py_eval text = inl e -> is_ParsingError e = false).
  { intros e. unfold py_eval.
    repeat match goal with
           | |- context [match ?x with _ => _ end] => destruct x
           end; intros H; inversion H; reflexivity. }
  split; [destruct (py_eval text); discriminate|].
  exists (3 + List.length l)%nat. intros fuel Hle.
  destruct fuel as [|[|[|fuel]]]; try lia.
  destruct (digits_run l fuel Hne Hall ltac:(lia)) as [Hinit Hrun].
  fold text in Hinit, Hrun. unfold parse. rewrite Hinit.
  destruct (py_eval text) as [e|v] eqn:E.
  - pose proof (Hnp e eq_refl) as He.
    rewrite (expr_of_digits_raise fuel _ e He Hrun). reflexivity.
  - assert (Hend : py_len (Context.s (Context.mk text (py_len text)))
                   <= Context.pos (Context.mk text (py_len text))) by (simpl; lia).
    rewrite (expr_of_digits_at_end fuel _ _ v Hend Hrun).
    rewrite rest_str_at_end. reflexivity.
Qed.

Lemma fold_digits_from (ds : list ascii) (acc : Z) :
  fold_left (fun acc a => 10 * acc + digit_value a) ds acc =
  acc * 10 ^ Z.of_nat (List.length ds) +
  fold_left (fun acc a => 10 * acc + digit_value a) ds 0.
Proof.
  revert acc; induction ds as [|a ds IH]; intros acc; cbn [fold_left List.length].
  - rewrite Z.pow_0_r. lia.
  - rewrite (IH (10 * acc + digit_value a)), (IH (10 * 0 + digit_value a)).
    rewrite Nat2Z.inj_succ, Z.pow_succ_r by lia. lia.
Qed.

(** [int_of_digits] is the positional value of the digits. *)
Lemma int_of_digits_cons (d : ascii) (ds : list ascii) :
  int_of_digits (d :: ds) =
  digit_value d * 10 ^ Z.of_nat (List.length ds) + int_of_digits ds.
Proof.
  unfold int_of_digits. cbn [fold_left]. rewrite fold_digits_from. lia.
Qed.

Lemma int_of_digits_snoc (ds : list ascii) (d : ascii) :
  int_of_digits (ds ++ [d]) = 10 * int_of_digits ds + digit_value d.
Proof. unfold int_of_digits. rewrite fold_left_app. reflexivity. Qed.

Lemma digits_are_number_chars (ds : list ascii) :
  forallb is_digit ds = true ->
  forallb (fun z => py_in z "1234567890.") ds = true.
Proof.
  rewrite !forallb_forall. intros H a Ha. apply digit_is_number_char, H, Ha.
Qed.

(** C1, as the code has it: [digits] hands the text to [eval].  A string
    of digits that is a Python integer literal (no leading zero, unless
    all its digits are zeros) parses to the [int] it writes, with nothing
    left over; a string of digits with one [.] in it and at least one
    digit parses to the [float] nearest to the decimal number it writes,
    with nothing left over; [parse("42")] answers the int 42. *)
Theorem C1_number_literals :
  (forall ds,
     forallb is_digit ds = true -> decinteger_ok ds = true ->
     parses_to (string_of_list_ascii ds)
       (Parsed (VInt (int_of_digits ds)) EmptyString)) /\
  (forall ip fp,
     forallb is_digit ip = true -> forallb is_digit fp = true -> ip ++ fp <> [] ->
     parses_to (string_of_list_ascii (ip ++ "."%char :: fp))
       (Parsed (VFloat (float_of_decimal ip fp)) EmptyString)) /\
  parses_to "42" (Parsed (VInt 42) EmptyString).
Proof.
  refine (conj _ (conj _ _)).
  - intros ds Hds Hok.
    assert (Hne : ds <> []) by (destruct ds; [discriminate Hok | discriminate]).
    pose proof (parse_number_text ds Hne (digits_are_number_chars ds Hds)) as H.
    cbv zeta in H. rewrite (py_eval_int ds Hds Hok) in H. exact H.
  - intros ip fp Hip Hfp Hne.
    assert (Hne' : ip ++ "."%char :: fp <> []) by (destruct ip; discriminate).
    assert (Hall : forallb (fun z => py_in z "1234567890.") (ip ++ "."%char :: fp) = true).
    { rewrite forallb_forall in *. intros a Ha.
      apply in_app_or in Ha as [Ha|[<-|Ha]];
        [apply digit_is_number_char, Hip, Ha | reflexivity
        | apply digit_is_number_char, Hfp, Ha]. }
    pose proof (parse_number_text _ Hne' Hall) as H.
    cbv zeta in H. rewrite (py_eval_float ip fp Hip Hfp Hne) in H. exact H.
  - run_parse 10%nat.
Qed.

Lemma C1_witness :
  let ds := list_ascii_of_string "1024" in
  let ip := list_ascii_of_string "3" in
  let fp := list_ascii_of_string "25" in
  (forallb is_digit ds = true /\ decinteger_ok ds = true /\
   parses_to "1024" (Parsed (VInt 1024) EmptyString)) /\
  (forallb is_digit ip = true /\ forallb is_digit fp = true /\ ip ++ fp <> [] /\
   parses_to "3.25" (Parsed (VFloat (S754_finite false 7318349394477056 (-51))) EmptyString)).
Proof.
  intros ds ip fp. split.
  - split; [reflexivity|]. split; [reflexivity|].
    exact (proj1 C1_number_literals ds eq_refl eq_refl).
  - split; [reflexivity|]. split; [reflexivity|].
    assert (Hne : ip ++ fp <> []) by discriminate.
    split; [exact Hne|].
    exact (proj1 (proj2 C1_number_literals) ip fp eq_refl eq_refl Hne).
Defined.

(** C1 as the specification words it fails: ["01"] is a string of digit
    characters, and [parse] does not succeed on it ([eval] rejects an
    integer literal with a leading zero). *)
Lemma C1_counterexample :
  ~ (forall x : string,
       digits_with_optional_dot x = true ->
       parses_to x (Parsed (VFloat (decimal_value x)) EmptyString)).
Proof.
  intros H. specialize (H "01"%string eq_refl).
  assert (H' : parses_to "01" (Failed SyntaxError)) by run_parse 10%nat.
  pose proof (parses_to_unique _ _ _ H H') as E. discriminate E.
Qed.

(** On ["42"] the value is an [int], where the specification writes the
    float [42.0]. *)
Lemma parse_42_is_int :
  digits_with_optional_dot "42" = true /\
  parses_to "42" (Parsed (VInt 42) EmptyString) /\
  ~ parses_to "42" (Parsed (VFloat (float_of_Z 42)) EmptyString).
Proof.
  assert (H : parses_to "42" (Parsed (VInt 42) EmptyString)) by run_parse 10%nat.
  split; [reflexivity|]. split; [exact H|].
  intros H'. pose proof (parses_to_unique _ _ _ H H') as E. discriminate E.
Qed.

(** ** Parsing comes to an end *)

Ltac by_onward :=
  first [ exact onward_refl | exact onward_trans | exact onward_ok
        | exact onward_next | assumption ].

Lemma forward_ret {A} (a : A) : forward (Parser_ret a).
Proof. apply (respects_ret onward); by_onward. Qed.

Lemma forward_seq {A B} (p : Parser A) (f : A -> Parser B) :
  forward p -> (forall a, forward (f a)) -> forward (Parser_bind p f).
Proof. apply (respects_bind onward); by_onward. Qed.

Lemma forward_Sat (pr : ascii -> bool) : forward (Sat pr).
Proof. apply (respects_Sat onward); by_onward. Qed.

Lemma forward_Many {A} (p : Parser A) (fuel : nat) : forward p -> forward (Many fuel p).
Proof. apply (respects_Many onward); by_onward. Qed.

Lemma forward_space (fuel : nat) : forward (space fuel).
Proof. apply forward_Many, forward_Sat. Qed.

Lemma forward_String_loop (x : string) : forward (String_loop x).
Proof. apply (respects_String_loop onward); by_onward. Qed.

Lemma forward_opsym (fuel : nat) (x : string) (op : binop) :
  forward (Symb fuel x ;; Parser_ret op).
Proof. apply (respects_opsym onward); by_onward. Qed.

Lemma forward_Symb (fuel : nat) (x : string) : forward (Symb fuel x).
Proof. apply (respects_Symb onward); by_onward. Qed.

Lemma forward_grammar (fuel : nat) :
  forward (expr fuel) /\ forward (term fuel) /\ forward (factor fuel).
Proof. apply (respects_grammar onward); by_onward. Qed.

Lemma advances_seq {A B} (p : Parser A) (f : A -> Parser B) :
  advances p -> (forall a, forward (f a)) -> advances (Parser_bind p f).
Proof.
  apply (respects_seq further onward further);
    [exact further_ok | exact further_then_onward].
Qed.

Lemma advances_Sat (pr : ascii -> bool) : advances (Sat pr).
Proof. apply (respects_Sat further), further_next. Qed.

Lemma advances_forward {A} (p : Parser A) : advances p -> forward p.
Proof. intros H c a c' Hc E. apply further_onward, (H c a c' Hc E). Qed.

Lemma advances_many1 {A} (p : Parser A) (fuel : nat) :
  advances p -> advances (many1 fuel p).
Proof.
  intros Hp. apply advances_seq; [exact Hp|]; intros x.
  apply forward_seq; [apply forward_Many, advances_forward, Hp|].
  intros xs; apply forward_ret.
Qed.

Lemma advances_token {A} (p : Parser A) (fuel : nat) :
  advances p -> advances (token fuel p).
Proof.
  intros Hp. apply advances_seq; [exact Hp|]; intros a.
  apply forward_seq; [apply forward_space | intros _; apply forward_ret].
Qed.

Lemma advances_Symb (fuel : nat) (ch : ascii) (x : string) :
  advances (Symb fuel (String ch x)).
Proof.
  apply advances_token. apply advances_seq; [|intros _; apply forward_ret].
  simpl. apply advances_seq; [apply advances_Sat | intros _; apply forward_String_loop].
Qed.

Lemma advances_digits (fuel : nat) : advances (digits fuel).
Proof.
  intros c v c' Hc H. unfold digits in H.
  set (one := Sat (fun z => py_in z "1234567890.")) in H.
  destruct (token fuel (many1 fuel one) c) as [x c1| |] eqn:E; try discriminate H.
  destruct (py_eval (py_join x)); [discriminate H|]. injection H as _ <-.
  apply (advances_token (many1 fuel one) fuel
           (advances_many1 one fuel (advances_Sat _)) c x c1 Hc E).
Qed.

Lemma advances_operator (pop : Parser binop) (pn1 pn2 : Parser pyval) :
  advances pn1 -> forward pop -> forward pn2 -> advances (operator pop pn1 pn2).
Proof.
  intros H1 Ho H2. apply advances_seq; [exact H1|]; intros n1.
  apply forward_seq; [exact Ho|]; intros op.
  apply forward_seq; [exact H2|]; intros n2.
  apply (respects_ret_or_raise onward); by_onward.
Qed.

Lemma advances_or {A} (a b : Parser A) :
  advances a -> advances b -> advances (Parser_or a b).
Proof. apply respects_or. Qed.

Lemma advances_grammar (fuel : nat) :
  advances (expr fuel) /\ advances (term fuel) /\ advances (factor fuel).
Proof.
  induction fuel as [|fuel (He & Ht & Hf)].
  - refine (conj _ (conj _ _)); intros c a c' _ H; discriminate H.
  - destruct (forward_grammar fuel) as (Fe & Ft & Ff).
    refine (conj _ (conj _ _)); simpl.
    + apply advances_or; [|exact Ht].
      apply advances_operator; [exact Ht | | exact Fe].
      apply (respects_or onward); apply forward_opsym.
    + apply advances_or; [|exact Hf].
      apply advances_operator; [exact Hf | | exact Ft].
      apply (respects_or onward); apply forward_opsym.
    + apply advances_or; [apply advances_digits|].
      apply advances_seq; [apply advances_Symb|]; intros _.
      apply forward_seq; [exact Fe|]; intros n.
      apply forward_seq; [apply forward_Symb | intros _; apply forward_ret].
Qed.

(** *** No parser of the grammar runs out of fuel *)

Lemma bind_answers {A B} (p : Parser A) (f : A -> Parser B) (c : Context.t) :
  p c <> Diverge -> (forall a c', p c = Ok a c' -> f a c' <> Diverge) ->
  Parser_bind p f c <> Diverge.
Proof.
  intros Hp Hf. unfold Parser_bind.
  destruct (p c) as [a c'|e|];
    [apply Hf; reflexivity | discriminate | contradiction Hp; reflexivity].
Qed.

Lemma or_answers {A} (a b : Parser A) (c : Context.t) :
  a c <> Diverge -> b c <> Diverge -> Parser_or a b c <> Diverge.
Proof.
  intros Ha Hb. unfold Parser_or.
  destruct (a c) as [v c'|[]|]; solve [discriminate | exact Hb | exact Ha].
Qed.

Lemma ret_answers {A} (a : A) (c : Context.t) : Parser_ret a c <> Diverge.
Proof. discriminate. Qed.

Lemma Many_Sat_answers (pr : ascii -> bool) (fuel : nat) (c : Context.t) :
  cursor_ok c -> (remaining c < fuel)%nat -> Many fuel (Sat pr) c <> Diverge.
Proof.
  intros Hc Hlt.
  destruct (Many_terminates (Sat pr) (advances_Sat pr)
              (fun c0 _ => Sat_no_diverge pr c0) (Sat_raises_ParsingError pr)
              fuel c Hc Hlt) as (xs & c' & H).
  rewrite H. discriminate.
Qed.

Lemma String_loop_answers (x : string) (c : Context.t) : String_loop x c <> Diverge.
Proof.
  revert c; induction x as [|ch x IH]; intros c; simpl; [discriminate|].
  apply bind_answers; [apply Sat_no_diverge | intros _ c' _; apply IH].
Qed.

Lemma token_answers {A} (p : Parser A) (fuel : nat) (c : Context.t) :
  cursor_ok c -> forward p -> p c <> Diverge -> (remaining c < fuel)%nat ->
  token fuel p c <> Diverge.
Proof.
  intros Hc Hf Hp Hlt. apply bind_answers; [exact Hp|]. intros a c' E.
  pose proof (Hf c a c' Hc E) as Ho.
  apply bind_answers; [|intros; apply ret_answers].
  apply Many_Sat_answers; [apply (onward_ok c c' Hc Ho)|].
  pose proof (onward_remaining c c' Ho). lia.
Qed.

Lemma Symb_answers (fuel : nat) (x : string) (c : Context.t) :
  cursor_ok c -> (remaining c < fuel)%nat -> Symb fuel x c <> Diverge.
Proof.
  intros Hc Hlt. apply token_answers; [exact Hc | | | exact Hlt].
  - apply (respects_String onward); by_onward.
  - apply bind_answers; [apply String_loop_answers | intros; apply ret_answers].
Qed.

Lemma opsym_answers (fuel : nat) (x : string) (op : binop) (c : Context.t) :
  cursor_ok c -> (remaining c < fuel)%nat ->
  (Symb fuel x ;; Parser_ret op) c <> Diverge.
Proof.
  intros Hc Hlt.
  apply bind_answers; [apply Symb_answers; assumption | intros; apply ret_answers].
Qed.

Lemma digits_answers (fuel : nat) (c : Context.t) :
  cursor_ok c -> (remaining c < fuel)%nat -> digits fuel c <> Diverge.
Proof.
  intros Hc Hlt. unfold digits.
  set (one := Sat (fun z => py_in z "1234567890.")).
  assert (H : token fuel (many1 fuel one) c <> Diverge).
  { apply token_answers; [exact Hc | | | exact Hlt].
    - apply advances_forward, advances_many1, advances_Sat.
    - apply bind_answers; [apply Sat_no_diverge|]. intros x c1 E.
      pose proof (forward_Sat _ c x c1 Hc E) as Ho.
      apply bind_answers; [|intros; apply ret_answers].
      apply Many_Sat_answers; [apply (onward_ok c c1 Hc Ho)|].
      pose proof (onward_remaining c c1 Ho). lia. }
  destruct (token fuel (many1 fuel one) c) as [x c1|e|];
    [destruct (py_eval (py_join x)); discriminate | discriminate
    | contradiction H; reflexivity].
Qed.

Lemma operator_answers (pop : Parser binop) (pn1 pn2 : Parser pyval)
    (c : Context.t) :
  pn1 c <> Diverge ->
  (forall n1 c1, pn1 c = Ok n1 c1 -> pop c1 <> Diverge) ->
  (forall n1 c1 op c2, pn1 c = Ok n1 c1 -> pop c1 = Ok op c2 -> pn2 c2 <> Diverge) ->
  operator pop pn1 pn2 c <> Diverge.
Proof.
  intros H1 Ho H2. apply bind_answers; [exact H1|]. intros n1 c1 E1.
  apply bind_answers; [apply (Ho n1 c1 E1)|]. intros op c2 E2.
  apply bind_answers; [apply (H2 n1 c1 op c2 E1 E2)|]. intros n2 c3 _.
  destruct (op n1 n2); discriminate.
Qed.

(** With fuel in proportion to what is left of the input, [factor],
    [term] and [expr] all answer. *)
Lemma grammar_answers (r : nat) :
  forall c, cursor_ok c -> (remaining c <= r)%nat ->
    (forall fuel, (3 * r + 3 <= fuel)%nat -> factor fuel c <> Diverge) /\
    (forall fuel, (3 * r + 4 <= fuel)%nat -> term fuel c <> Diverge) /\
    (forall fuel, (3 * r + 5 <= fuel)%nat -> expr fuel c <> Diverge).
Proof.
  induction r as [r IH] using lt_wf_ind. intros c Hc Hr.
  assert (Hsub : forall c', cursor_ok c -> further c c' ->
            (0 < r)%nat /\ cursor_ok c' /\ (remaining c' <= r - 1)%nat).
  { intros c' _ Hf. pose proof (further_remaining c c' Hf).
    refine (conj _ (conj (further_ok c c' Hc Hf) _)); lia. }
  assert (Hfactor : forall fuel, (3 * r + 3 <= fuel)%nat -> factor fuel c <> Diverge).
  { intros [|fuel] Hle; [lia|]. simpl.
    apply or_answers; [apply digits_answers; [exact Hc | lia]|].
    apply bind_answers; [apply Symb_answers; [exact Hc | lia]|]. intros x c1 E1.
    destruct (Hsub c1 Hc (advances_Symb fuel "(" EmptyString c x c1 Hc E1))
      as (Hpos & Hc1 & Hr1).
    apply bind_answers.
    { apply (IH (r - 1)%nat ltac:(lia) c1 Hc1 Hr1). lia. }
    intros n c2 E2.
    pose proof (proj1 (forward_grammar fuel) c1 n c2 Hc1 E2) as Ho.
    apply bind_answers; [|intros; apply ret_answers].
    apply Symb_answers; [apply (onward_ok c1 c2 Hc1 Ho)|].
    pose proof (onward_remaining c1 c2 Ho). lia. }
  assert (Hterm : forall fuel, (3 * r + 4 <= fuel)%nat -> term fuel c <> Diverge).
  { intros [|fuel] Hle; [lia|]. simpl.
    apply or_answers; [|apply Hfactor; lia].
    apply operator_answers; [apply Hfactor; lia | |].
    - intros n1 c1 E1.
      pose proof (proj2 (proj2 (forward_grammar fuel)) c n1 c1 Hc E1) as Ho.
      pose proof (onward_remaining c c1 Ho).
      apply or_answers; apply opsym_answers;
        solve [apply (onward_ok c c1 Hc Ho) | lia].
    - intros n1 c1 op c2 E1 E2.
      pose proof (proj2 (proj2 (advances_grammar fuel)) c n1 c1 Hc E1) as Hf.
      destruct (Hsub c1 Hc Hf) as (Hpos & Hc1 & Hr1).
      assert (Ho : onward c1 c2).
      { revert E2. apply (respects_or onward); apply forward_opsym || exact Hc1. }
      pose proof (onward_remaining c1 c2 Ho).
      apply (IH (r - 1)%nat ltac:(lia) c2 (onward_ok c1 c2 Hc1 Ho) ltac:(lia)). lia. }
  refine (conj Hfactor (conj Hterm _)).
  intros [|fuel] Hle; [lia|]. simpl.
  apply or_answers; [|apply Hterm; lia].
  apply operator_answers; [apply Hterm; lia | |].
  - intros n1 c1 E1.
    pose proof (proj1 (proj2 (forward_grammar fuel)) c n1 c1 Hc E1) as Ho.
    pose proof (onward_remaining c c1 Ho).
    apply or_answers; apply opsym_answers;
      solve [apply (onward_ok c c1 Hc Ho) | lia].
  - intros n1 c1 op c2 E1 E2.
    pose proof (proj1 (proj2 (advances_grammar fuel)) c n1 c1 Hc E1) as Hf.
    destruct (Hsub c1 Hc Hf) as (Hpos & Hc1 & Hr1).
    assert (Ho : onward c1 c2).
    { revert E2. apply (respects_or onward); apply forward_opsym || exact Hc1. }
    pose proof (onward_remaining c1 c2 Ho).
    apply (IH (r - 1)%nat ltac:(lia) c2 (onward_ok c1 c2 Hc1 Ho) ltac:(lia)). lia.
Qed.

(** [parse] answers on every input. *)
Theorem parse_always_answers (input : string) : exists r, parses_to input r.
Proof.
  set (c := Context_init input 0).
  assert (Hc : cursor_ok c).
  { apply Context_init_ok. unfold py_len. lia. }
  set (n := (3 * remaining c + 5)%nat).
  pose proof (proj2 (proj2 (grammar_answers (remaining c) c Hc (Nat.le_refl _)))
                n (Nat.le_refl _)) as Hn.
  exists (parse n input). apply (parses_to_run n); [reflexivity|].
  unfold parse. fold c. destruct (expr n c); [discriminate | discriminate|].
  contradiction Hn; reflexivity.
Qed.

(** A long integer literal keeps all its digits: the value is the [int]
    2^53 + 1, which no binary64 float equals (the nearest one is 2^53). *)
Lemma parse_large_int_exact :
  parses_to "9007199254740993" (Parsed (VInt (2 ^ 53 + 1)) EmptyString) /\
  decimal_value "9007199254740993" = float_of_Z (2 ^ 53).
Proof. split; [run_parse 30%nat | vm_compute; reflexivity]. Qed.

(** * Further properties of the code *)

(** ** How the combinators compose *)

(** X1: [ret] and [bind] obey the three monad laws, at every cursor. *)
Theorem X1_monad_laws :
  (forall A B (a : A) (f : A -> Parser B) c,
     Parser_bind (Parser_ret a) f c = f a c) /\
  (forall A (p : Parser A) c, Parser_bind p Parser_ret c = p c) /\
  (forall A B C (p : Parser A) (f : A -> Parser B) (g : B -> Parser C) c,
     Parser_bind (Parser_bind p f) g c =
     Parser_bind p (fun a => Parser_bind (f a) g) c).
Proof.
  refine (conj _ (conj _ _)).
  - reflexivity.
  - intros A p c. unfold Parser_bind, Parser_ret. destruct (p c); reflexivity.
  - intros A B C p f g c. unfold Parser_bind. destruct (p c); reflexivity.
Qed.

(** X2: choice is associative, a parser that succeeds or raises something
    other than [ParsingError] hides every alternative after it, and
    sequencing after a choice commits to the first alternative that
    succeeded: a later failure does not bring the second one back. *)
Theorem X2_choice_laws :
  (forall A (a b d : Parser A) c,
     Parser_or (Parser_or a b) d c = Parser_or a (Parser_or b d) c) /\
  (forall A (v : A) (b : Parser A) c, Parser_or (Parser_ret v) b c = Ok v c) /\
  (forall A B (a b : Parser A) (f : A -> Parser B) c v c',
     a c = Ok v c' -> Parser_bind (Parser_or a b) f c = f v c').
Proof.
  refine (conj _ (conj _ _)).
  - intros A a b d c. unfold Parser_or.
    destruct (a c) as [v c'|[]|]; try reflexivity.
  - reflexivity.
  - intros A B a b f c v c' H. unfold Parser_bind, Parser_or. rewrite H. reflexivity.
Qed.

Lemma X2_witness :
  let a := String_ "1" in
  let b := String_ "12" in
  let f := fun _ : string => String_ "2+" in
  let c := Context_init "12+" 0 in
  a c = Ok "1"%string (Context.mk "12+" 1) /\
  Parser_bind (Parser_or a b) f c = Ok "2+"%string (Context.mk "12+" 3).
Proof.
  intros a b f c. split; [reflexivity|].
  rewrite (proj2 (proj2 X2_choice_laws) _ _ a b f c "1"%string (Context.mk "12+" 1) eq_refl).
  reflexivity.
Defined.

(** X3: [Parser.pick] followed by [Parser.next] is [Sat] with a test
    that accepts every character. *)
Theorem X3_pick_then_next (c : Context.t) :
  (ch <- Parser_pick ;; Parser_next ;; Parser_ret ch) c = Sat (fun _ => true) c.
Proof.
  unfold Parser_bind, Parser_pick, Parser_next, Parser_ret, Sat.
  destruct (Context_pick c); reflexivity.
Qed.

(** ** The cursor *)

Lemma substring_from_get (x : string) :
  forall n ch, String.get n x = Some ch ->
    substring n (String.length x - n) x =
    String ch (substring (S n) (String.length x - S n) x).
Proof.
  induction x as [|a x IH]; intros [|n] ch H; simpl in H; try discriminate H.
  - injection H as <-. simpl. rewrite Nat.sub_0_r. reflexivity.
  - simpl. apply IH, H.
Qed.

Lemma substring_nothing (x : string) (n : nat) : substring n 0 x = EmptyString.
Proof.
  revert n; induction x as [|a x IH]; intros [|n]; simpl; try reflexivity. apply IH.
Qed.

Lemma length_substring_from (x : string) :
  forall n, (n <= String.length x)%nat ->
    String.length (substring n (String.length x - n) x) = (String.length x - n)%nat.
Proof.
  induction x as [|a x IH]; intros [|n] H; simpl in *; try lia.
  - f_equal. specialize (IH 0%nat ltac:(lia)). rewrite Nat.sub_0_r in IH. exact IH.
  - apply IH. lia.
Qed.

Lemma rest_str_inside (c : Context.t) :
  0 <= Context.pos c <= py_len (Context.s c) ->
  Context_rest_str c =
  substring (Z.to_nat (Context.pos c))
    (String.length (Context.s c) - Z.to_nat (Context.pos c)) (Context.s c).
Proof.
  intros H. unfold Context_rest_str, py_slice_from.
  destruct (Context.pos c <? 0) eqn:E; [lia|].
  rewrite Z.min_l by lia. f_equal. unfold py_len in *. lia.
Qed.

Lemma pick_is_get (c : Context.t) (ch : ascii) :
  0 <= Context.pos c -> Context_pick c = inr ch ->
  String.get (Z.to_nat (Context.pos c)) (Context.s c) = Some ch.
Proof.
  intros H0 H. pose proof (Context_pick_success c ch H) as Hlt.
  unfold Context_pick, Context_at, py_getitem in H.
  destruct (Context.pos c >=? py_len (Context.s c)); [discriminate H|].
  replace ((0 <=? Context.pos c) && (Context.pos c <? py_len (Context.s c)))
    with true in H by (symmetry; apply andb_true_iff; split; lia).
  destruct (String.get (Z.to_nat (Context.pos c)) (Context.s c));
    [injection H as <-; reflexivity | discriminate H].
Qed.

(** X4: on a cursor inside its text, [rest_str] is the character that
    [pick] returns followed by [rest_str] of [next]; its length is the
    distance to the end of the text; and it is empty exactly when [at]
    returns [None].  At or past the end it is empty, without error. *)
Theorem X4_rest_str (c : Context.t) :
  cursor_ok c ->
  (forall ch, Context_pick c = inr ch ->
     Context_rest_str c = String ch (Context_rest_str (Context_next c))) /\
  String.length (Context_rest_str c) = remaining c /\
  (Context_rest_str c = EmptyString <-> Context_at c = inr None) /\
  (forall k, py_len (Context.s c) <= k ->
     Context_rest_str (Context.mk (Context.s c) k) = EmptyString).
Proof.
  intros [Hs Hp].
  assert (Hlen : String.length (Context_rest_str c) = remaining c).
  { rewrite (rest_str_inside c Hp), length_substring_from
      by (unfold py_len in Hp; lia).
    unfold remaining, py_len. lia. }
  refine (conj _ (conj Hlen (conj _ _))).
  - intros ch Hpick. pose proof (Context_pick_success c ch Hpick) as Hlt.
    rewrite (rest_str_inside c Hp), (Context_next_ok c Hs).
    rewrite (rest_str_inside (Context.mk _ _)) by (simpl; lia). simpl.
    rewrite (substring_from_get _ _ ch (pick_is_get c ch (proj1 Hp) Hpick)).
    do 2 f_equal; lia.
  - split; intros H.
    + apply Context_at_end. rewrite H in Hlen. simpl in Hlen.
      unfold remaining in Hlen. lia.
    + destruct (Context_rest_str c) as [|a r] eqn:E; [reflexivity|].
      simpl in Hlen. unfold remaining in Hlen.
      unfold Context_at in H.
      destruct (Context.pos c >=? py_len (Context.s c)) eqn:G; [lia|].
      destruct (py_getitem (Context.s c) (Context.pos c)); discriminate H.
  - intros k Hk. unfold Context_rest_str, py_slice_from. simpl.
    assert (0 <= py_len (Context.s c)) by (unfold py_len; lia).
    destruct (k <? 0) eqn:E; [lia|].
    rewrite Z.min_r, Z.sub_diag by lia. apply substring_nothing.
Qed.

Lemma X4_witness :
  let c := Context_init "1+2" 1 in
  cursor_ok c /\ Context_pick c = inr "+"%char /\
  Context_rest_str c = String "+" (Context_rest_str (Context_next c)) /\
  String.length (Context_rest_str c) = 2%nat.
Proof.
  intros c.
  assert (Hc : cursor_ok c) by (apply Context_init_ok; vm_compute; split; discriminate).
  split; [exact Hc|]. split; [reflexivity|].
  split; [exact (proj1 (X4_rest_str c Hc) "+"%char eq_refl)|].
  exact (proj1 (proj2 (X4_rest_str c Hc))).
Defined.

(** X5: building a cursor from the text of a cursor changes nothing:
    [copy] of a cursor made by the constructor equals it, [next] keeps
    its text and adds one to its position, and doing [next] after [copy]
    is doing [copy] after [next]. *)
Theorem X5_copy_and_next (s0 : string) (p : Z) :
  let c := Context_init s0 p in
  Context_copy c = c /\
  Context_next c = Context.mk (Context.s c) (p + 1) /\
  Context_next (Context_copy c) = Context_copy (Context_next c).
Proof.
  intros c.
  assert (Hcopy : forall q, Context_copy (Context_init s0 q) = Context_init s0 q).
  { intros q. unfold Context_copy, Context_init. simpl.
    rewrite py_strip_idem. reflexivity. }
  assert (Hnext : Context_next c = Context.mk (Context.s c) (p + 1)).
  { apply (Context_next_ok c). apply py_strip_idem. }
  refine (conj (Hcopy p) (conj Hnext _)). subst c.
  rewrite (Hcopy p), Hnext. symmetry. apply (Hcopy (p + 1)).
Qed.

(** ** Repetition reads all it can *)

Lemma Many_never_ParsingError {A} (p : Parser A) (fuel : nat) :
  forall c msg k, Many fuel p c <> Raise (ParsingError msg k).
Proof.
  destruct fuel as [|fuel]; intros c msg k; [discriminate|].
  rewrite Many_unfold. unfold Parser_or, many1, Parser_bind, Parser_ret.
  destruct (p c) as [x c1|e|] eqn:Ep.
  - destruct (Many fuel p c1) as [xs' c2|e|] eqn:Em; try discriminate.
    destruct e; discriminate.
  - destruct e; discriminate.
  - discriminate.
Qed.

Lemma Many_success {A} (p : Parser A) (fuel : nat) (c c' : Context.t) (xs : list A) :
  Many fuel p c = Ok xs c' ->
  (xs = [] /\ c' = c /\ exists msg k, p c = Raise (ParsingError msg k)) \/
  (exists fuel' x xs' c1,
     fuel = S fuel' /\ xs = x :: xs' /\ p c = Ok x c1 /\ Many fuel' p c1 = Ok xs' c').
Proof.
  destruct fuel as [|fuel]; [discriminate|].
  rewrite Many_unfold. unfold Parser_or, many1, Parser_bind, Parser_ret.
  destruct (p c) as [x c1|e|] eqn:Ep.
  - destruct (Many fuel p c1) as [xs' c2|e|] eqn:Em.
    + intros H. injection H as <- <-. right. exists fuel, x, xs', c1. auto.
    + destruct e; try discriminate.
      destruct (Many_never_ParsingError p fuel c1 msg ctx Em).
    + discriminate.
  - destruct e; try discriminate. intros H. injection H as <- <-.
    left. eauto.
  - discriminate.
Qed.

Lemma Many_stops {A} (p : Parser A) (fuel : nat) :
  forall c xs c', Many fuel p c = Ok xs c' ->
    exists msg k, p c' = Raise (ParsingError msg k).
Proof.
  induction fuel as [|fuel IH]; intros c xs c' H; [discriminate H|].
  destruct (Many_success p _ c c' xs H)
    as [(-> & -> & Hp) | (fuel' & x & xs' & c1 & Hf & -> & Hp & Hm)].
  - exact Hp.
  - injection Hf as <-. apply (IH c1 xs' c' Hm).
Qed.

(** X6: when [Many p] succeeds, [p] fails with a [ParsingError] at the
    cursor it hands back, so nothing more could have been read; an empty
    result leaves the cursor where it was; and [many1 p] never answers
    an empty list. *)
Theorem X6_Many_stops_where_p_fails {A} (p : Parser A) (fuel : nat)
    (c c' : Context.t) (xs : list A) :
  (Many fuel p c = Ok xs c' ->
     (exists msg k, p c' = Raise (ParsingError msg k)) /\ (xs = [] -> c' = c)) /\
  (many1 fuel p c = Ok xs c' -> xs <> []).
Proof.
  split.
  - intros H. split; [apply (Many_stops p fuel c xs c' H)|].
    destruct (Many_success p _ c c' xs H)
      as [(_ & -> & _) | (fuel' & x & xs' & c1 & _ & -> & _)];
      [reflexivity | discriminate].
  - unfold many1, Parser_bind, Parser_ret. intros H.
    destruct (p c) as [x c1|e|]; try discriminate H.
    destruct (Many fuel p c1) as [xs' c2|e|]; try discriminate H.
    injection H as <- _. discriminate.
Qed.

Lemma X6_witness :
  let p := Sat is_digit in
  let c := Context_init "12+3" 0 in
  let c' := Context.mk "12+3" 2 in
  Many 5 p c = Ok (list_ascii_of_string "12") c' /\
  exists msg k, p c' = Raise (ParsingError msg k).
Proof.
  intros p c c'.
  assert (H : Many 5 p c = Ok (list_ascii_of_string "12") c') by reflexivity.
  split; [exact H|].
  exact (proj1 (proj1 (X6_Many_stops_where_p_fails p 5 c c' _) H)).
Defined.

(** X7: when [p] consumes a character each time it succeeds, [Many p]
    returns no more results than the characters it consumed, and hands
    back a cursor of the same text, not before the one it was given. *)
Theorem X7_Many_counts {A} (p : Parser A) :
  advances p ->
  forall fuel c xs c', cursor_ok c -> Many fuel p c = Ok xs c' ->
    onward c c' /\ Z.of_nat (List.length xs) <= Context.pos c' - Context.pos c.
Proof.
  intros Hadv. induction fuel as [|fuel IH]; intros c xs c' Hc H; [discriminate H|].
  destruct (Many_success p _ c c' xs H)
    as [(-> & -> & Hp) | (fuel' & x & xs' & c1 & Hf & -> & Hp & Hm)].
  - split; [apply onward_refl, Hc | simpl; lia].
  - injection Hf as <-.
    pose proof (Hadv c x c1 Hc Hp) as Hf.
    destruct (IH c1 xs' c' (further_ok c c1 Hc Hf) Hm) as [Ho Hn].
    split; [apply (onward_trans c c1 c' (further_onward c c1 Hf) Ho)|].
    destruct Hf as [_ Hf]. cbn [List.length]. lia.
Qed.

Lemma X7_witness :
  let c := Context_init "12+3" 0 in
  let c' := Context.mk "12+3" 2 in
  cursor_ok c /\ Many 5 (Sat is_digit) c = Ok (list_ascii_of_string "12") c' /\
  onward c c'.
Proof.
  intros c c'.
  assert (Hc : cursor_ok c) by (apply Context_init_ok; vm_compute; split; discriminate).
  assert (H : Many 5 (Sat is_digit) c = Ok (list_ascii_of_string "12") c') by reflexivity.
  split; [exact Hc|]. split; [exact H|].
  exact (proj1 (X7_Many_counts (Sat is_digit) (advances_Sat is_digit) 5 c _ c' Hc H)).
Defined.

Lemma Many_Sat_munch (pr : ascii -> bool) (l : list ascii) (text : string) :
  text = string_of_list_ascii l -> py_strip text = text ->
  forall (run pre rest : list ascii) (fuel : nat),
    l = pre ++ run ++ rest -> forallb pr run = true ->
    match rest with [] => True | b :: _ => pr b = false end ->
    (List.length run < fuel)%nat ->
    Many fuel (Sat pr) (cursor_at text (List.length pre)) =
    Ok run (cursor_at text (List.length pre + List.length run)).
Proof.
  intros Htext Htrim.
  induction run as [|a run IH]; intros pre rest fuel Hl Hall Hrest Hfuel;
    (destruct fuel as [|fuel]; [simpl in Hfuel; lia|]);
    rewrite Many_unfold; unfold Parser_or, many1, Parser_bind.
  - simpl in Hl. rewrite Nat.add_0_r. unfold Sat.
    destruct rest as [|b rest].
    + rewrite Context_pick_end; [reflexivity|].
      unfold cursor_at; simpl. rewrite (py_len_text l text Htext), Hl, app_nil_r. lia.
    + rewrite (pick_in_run l text Htext pre rest b Hl), Hrest. reflexivity.
  - simpl in Hall. apply andb_true_iff in Hall as [Ha Hall].
    rewrite (Sat_in_run l text Htext Htrim pr pre (run ++ rest) a Hl Ha).
    specialize (IH (pre ++ [a]) rest fuel).
    rewrite length_app, Nat.add_1_r in IH.
    rewrite IH; [| rewrite <- app_assoc; exact Hl | exact Hall | exact Hrest
                 | simpl in Hfuel; lia].
    unfold Parser_ret. f_equal. f_equal. simpl. lia.
Qed.

(** X8: [Many (Sat pr)] reads the longest run of characters that pass
    [pr]: started in front of a run of such characters that is followed
    by the end of the text or by a character that fails [pr], it returns
    exactly that run and stops right after it. *)
Theorem X8_Many_Sat_longest_run (pr : ascii -> bool) (pre run rest : list ascii)
    (fuel : nat) :
  let text := string_of_list_ascii (pre ++ run ++ rest) in
  py_strip text = text ->
  forallb pr run = true ->
  match rest with [] => True | b :: _ => pr b = false end ->
  (List.length run < fuel)%nat ->
  Many fuel (Sat pr) (Context.mk text (Z.of_nat (List.length pre))) =
  Ok run (Context.mk text (Z.of_nat (List.length pre + List.length run))).
Proof.
  intros text Htrim Hall Hrest Hfuel.
  apply (Many_Sat_munch pr (pre ++ run ++ rest) text eq_refl Htrim run pre rest fuel
           eq_refl Hall Hrest Hfuel).
Qed.

Lemma X8_witness :
  Many 4 (Sat (fun x => py_in x space_chars)) (Context.mk "1  + 2" 1) =
  Ok (list_ascii_of_string "  ") (Context.mk "1  + 2" 3).
Proof.
  exact (X8_Many_Sat_longest_run (fun x => py_in x space_chars)
           (list_ascii_of_string "1") (list_ascii_of_string "  ")
           (list_ascii_of_string "+ 2") 4 eq_refl eq_refl eq_refl
           (le_n_S _ _ (le_n_S _ _ (le_n_S _ _ (le_0_n _))))).
Defined.

(** ** Tokens swallow the white space after them *)

Lemma Sat_fails_past (pr : ascii -> bool) (c : Context.t) (msg : string)
    (k : Context.t) (ch : ascii) :
  Sat pr c = Raise (ParsingError msg k) -> Context_at c = inr (Some ch) ->
  pr ch = false.
Proof.
  unfold Sat, Context_pick. intros H Hat. rewrite Hat in H.
  destruct (pr ch); [discriminate H | reflexivity].
Qed.

(** X9: after [token p] succeeds, the character under the cursor, if
    there is one, is not a blank, tab, newline or carriage return,
    whatever [p] is. *)
Theorem X9_token_skips_space {A} (p : Parser A) (fuel : nat) (c c' : Context.t)
    (a : A) :
  token fuel p c = Ok a c' -> past_space c'.
Proof.
  unfold token, Parser_bind, Parser_ret, space. intros H ch Hat.
  destruct (p c) as [a1 c1|e|]; try discriminate H.
  destruct (Many fuel (Sat (fun x => py_in x space_chars)) c1) as [ws c2|e|] eqn:Em;
    try discriminate H.
  injection H as _ <-.
  destruct (Many_stops _ fuel c1 ws c2 Em) as (msg & k & Hs).
  apply (Sat_fails_past _ c2 msg k ch Hs Hat).
Qed.

Lemma X9_witness :
  let c := Context_init "12   +" 0 in
  let c' := Context.mk "12   +" 5 in
  token 6 (many1 6 (Sat is_digit)) c = Ok (list_ascii_of_string "12") c' /\
  past_space c'.
Proof.
  intros c c'.
  assert (H : token 6 (many1 6 (Sat is_digit)) c = Ok (list_ascii_of_string "12") c')
    by reflexivity.
  split; [exact H | exact (X9_token_skips_space _ 6 c c' _ H)].
Defined.

Lemma tidy_token {A} (p : Parser A) (fuel : nat) : tidy (token fuel p).
Proof.
  intros c v c' H ch Hat.
  unfold token, Parser_bind, Parser_ret, space in H.
  destruct (p c) as [a1 c1|e|]; try discriminate H.
  destruct (Many fuel (Sat (fun x => py_in x space_chars)) c1) as [ws c2|e|] eqn:Em;
    try discriminate H.
  injection H as _ <-.
  destruct (Many_stops _ fuel c1 ws c2 Em) as (msg & k & Hs).
  apply (Sat_fails_past _ c2 msg k ch Hs Hat).
Qed.

Lemma tidy_or {A} (a b : Parser A) : tidy a -> tidy b -> tidy (Parser_or a b).
Proof.
  intros Ha Hb c v c' H. unfold Parser_or in H.
  destruct (a c) as [v1 c1|e|] eqn:E.
  - injection H as <- <-. apply (Ha c v1 c1 E).
  - destruct e; try discriminate H. apply (Hb c v c' H).
  - discriminate H.
Qed.

Lemma tidy_bind {A B} (p : Parser A) (f : A -> Parser B) :
  (forall a, tidy (f a)) -> tidy (Parser_bind p f).
Proof.
  intros Hf c v c' H. unfold Parser_bind in H.
  destruct (p c) as [a c1|e|]; try discriminate H. apply (Hf a c1 v c' H).
Qed.

Lemma tidy_then_ret {A B} (p : Parser A) (g : A -> exn + B) :
  tidy p -> tidy (Parser_bind p (fun a => ret_or_raise (g a))).
Proof.
  intros Hp c v c' H. unfold Parser_bind in H.
  destruct (p c) as [a c1|e|] eqn:E; try discriminate H.
  destruct (g a); simpl in H; [discriminate H|].
  injection H as _ <-. apply (Hp c a c1 E).
Qed.

Lemma tidy_digits (fuel : nat) : tidy (digits fuel).
Proof.
  intros c v c' H. unfold digits in H.
  set (one := Sat (fun z => py_in z "1234567890.")) in H.
  destruct (token fuel (many1 fuel one) c) as [x c1| |] eqn:E; try discriminate H.
  destruct (py_eval (py_join x)); [discriminate H|]. injection H as _ <-.
  apply (tidy_token _ fuel c x c1 E).
Qed.

Lemma tidy_operator (pop : Parser binop) (pn1 pn2 : Parser pyval) :
  tidy pn2 -> tidy (operator pop pn1 pn2).
Proof.
  intros H2. unfold operator.
  apply tidy_bind; intros n1. apply tidy_bind; intros op.
  apply (tidy_then_ret pn2 (op n1)), H2.
Qed.

Lemma tidy_grammar (fuel : nat) :
  tidy (expr fuel) /\ tidy (term fuel) /\ tidy (factor fuel).
Proof.
  induction fuel as [|fuel (He & Ht & Hf)].
  - refine (conj _ (conj _ _)); intros c a c' H; discriminate H.
  - refine (conj _ (conj _ _)); simpl.
    + apply tidy_or; [apply tidy_operator|]; assumption.
    + apply tidy_or; [apply tidy_operator|]; assumption.
    + apply tidy_or; [apply tidy_digits|].
      apply tidy_bind; intros _. apply tidy_bind; intros n.
      apply (tidy_then_ret (Symb fuel ")") (fun _ => inr n)), tidy_token.
Qed.

(** X10: what [parse] leaves over never begins with a blank, tab,
    newline or carriage return: the last token of the expression took
    them. *)
Theorem X10_remainder_starts_past_space (fuel : nat) (input : string)
    (v : pyval) (ch : ascii) (rest : string) :
  parse fuel input = Parsed v (String ch rest) -> py_in ch space_chars = false.
Proof.
  unfold parse. set (c := Context_init input 0).
  destruct (expr fuel c) as [v' c'| |] eqn:E; try discriminate.
  intros H. injection H as _ Hrest.
  assert (Hc : cursor_ok c) by (apply Context_init_ok; unfold py_len; lia).
  pose proof (keeps_cursor_ok _ c c' v' (proj2 (proj2 (proj2 (keeps_grammar fuel))))
                Hc E) as Hc'.
  destruct Hc' as [Hs' Hp'].
  assert (Hlt : Context.pos c' < py_len (Context.s c')).
  { assert (L : String.length (Context_rest_str c') =
                (String.length (Context.s c') - Z.to_nat (Context.pos c'))%nat).
    { rewrite (rest_str_inside c' Hp'). apply length_substring_from.
      unfold py_len in Hp'. lia. }
    rewrite Hrest in L. simpl in L. unfold py_len in *. lia. }
  destruct (Context_pick_inside c' (proj1 Hp') Hlt) as [ch0 Hpick].
  assert (Hhead : Context_rest_str c' = String ch0 (Context_rest_str (Context_next c'))).
  { rewrite (rest_str_inside c' Hp'), (Context_next_ok c' Hs').
    rewrite (rest_str_inside (Context.mk _ _)) by (simpl; lia). simpl.
    rewrite (substring_from_get _ _ ch0 (pick_is_get c' ch0 (proj1 Hp') Hpick)).
    do 2 f_equal; lia. }
  rewrite Hrest in Hhead. injection Hhead as -> _.
  apply (proj1 (tidy_grammar fuel) c v' c' E ch0).
  unfold Context_pick in Hpick.
  destruct (Context_at c') as [e|[x|]]; try discriminate Hpick.
  injection Hpick as ->. reflexivity.
Qed.

Lemma X10_witness :
  parse 20 "1 + 2   ) 3" = Parsed (VInt 3) ") 3" /\
  py_in ")" space_chars = false.
Proof.
  assert (H : parse 20 "1 + 2   ) 3" = Parsed (VInt 3) ") 3") by (vm_compute; reflexivity).
  split; [exact H | exact (X10_remainder_starts_past_space 20 _ _ _ _ H)].
Defined.

(** ** What a failure looks like *)

Lemma fair_failure_onward (c c1 : Context.t) (e : exn) :
  onward c c1 -> fair_failure c1 e -> fair_failure c e.
Proof.
  intros Ho. destruct e; simpl; auto.
  intros [Hk Hm]. split; [apply (onward_trans c c1 ctx Ho Hk) | exact Hm].
Qed.

Lemma fair_Sat (pr : ascii -> bool) : fails_fairly (Sat pr).
Proof.
  intros c e Hc H. unfold Sat in H.
  destruct (Z.eq_dec (Context.pos c) (py_len (Context.s c))) as [Heq|Hne].
  - rewrite (Context_pick_end c ltac:(lia)) in H. injection H as <-.
    split; [apply onward_refl, Hc|]. unfold message_at.
    rewrite (Context_at_end c ltac:(lia)). reflexivity.
  - destruct Hc as [Hs Hp].
    destruct (Context_pick_inside c ltac:(lia) ltac:(lia)) as [ch Hch].
    rewrite Hch in H. destruct (pr ch); [discriminate H|]. injection H as <-.
    split; [apply onward_refl; split; assumption|]. unfold message_at.
    unfold Context_pick in Hch.
    destruct (Context_at c) as [e|[x|]]; try discriminate Hch.
    injection Hch as ->. reflexivity.
Qed.

Lemma fair_ret {A} (a : A) : fails_fairly (Parser_ret a).
Proof. intros c e _ H. discriminate H. Qed.

Lemma fair_bind {A B} (p : Parser A) (f : A -> Parser B) :
  forward p -> fails_fairly p -> (forall a, fails_fairly (f a)) ->
  fails_fairly (Parser_bind p f).
Proof.
  intros Hfw Hp Hf c e Hc H. unfold Parser_bind in H.
  destruct (p c) as [a c1|e1|] eqn:E; try discriminate H.
  - pose proof (Hfw c a c1 Hc E) as Ho.
    apply (fair_failure_onward c c1 e Ho), (Hf a c1 e (onward_ok c c1 Hc Ho) H).
  - injection H as <-. apply (Hp c e1 Hc E).
Qed.

Lemma fair_or {A} (a b : Parser A) :
  fails_fairly a -> fails_fairly b -> fails_fairly (Parser_or a b).
Proof.
  intros Ha Hb c e Hc H. unfold Parser_or in H.
  destruct (a c) as [v c1|e1|] eqn:E; try discriminate H.
  pose proof (Ha c e1 Hc E) as H1.
  destruct e1; try (injection H as <-; exact H1).
  apply (Hb c e Hc H).
Qed.

Lemma fair_Many {A} (p : Parser A) (fuel : nat) :
  forward p -> fails_fairly p -> fails_fairly (Many fuel p).
Proof.
  intros Hfw Hp. induction fuel as [|fuel IH]; [intros c e _ H; discriminate H|].
  simpl. apply fair_or; [|apply fair_ret].
  apply fair_bind; [exact Hfw | exact Hp|]. intros x.
  apply fair_bind; [apply forward_Many, Hfw | exact IH|]. intros xs. apply fair_ret.
Qed.

Lemma fair_many1 {A} (p : Parser A) (fuel : nat) :
  forward p -> fails_fairly p -> fails_fairly (many1 fuel p).
Proof.
  intros Hfw Hp. apply fair_bind; [exact Hfw | exact Hp|]. intros x.
  apply fair_bind; [apply forward_Many, Hfw | apply fair_Many; assumption|].
  intros xs. apply fair_ret.
Qed.

Lemma fair_token {A} (p : Parser A) (fuel : nat) :
  forward p -> fails_fairly p -> fails_fairly (token fuel p).
Proof.
  intros Hfw Hp. apply fair_bind; [exact Hfw | exact Hp|]. intros a.
  apply fair_bind; [apply forward_space | | intros; apply fair_ret].
  apply fair_Many; [apply forward_Sat | apply fair_Sat].
Qed.

Lemma fair_String_loop (x : string) : fails_fairly (String_loop x).
Proof.
  induction x as [|ch x IH]; simpl; [apply fair_ret|].
  apply fair_bind; [apply forward_Sat | apply fair_Sat | intros _; exact IH].
Qed.

Lemma fair_Symb (fuel : nat) (x : string) : fails_fairly (Symb fuel x).
Proof.
  apply fair_token.
  - apply (respects_String onward); by_onward.
  - apply fair_bind; [apply forward_String_loop | apply fair_String_loop|].
    intros; apply fair_ret.
Qed.

(** The exceptions of the arithmetic and of [eval]. *)
Lemma arithmetic_failures (op : binop) :
  op = py_add \/ op = py_sub \/ op = py_mul \/ op = py_truediv ->
  forall a b e c, op a b = inl e -> fair_failure c e.
Proof.
  assert (Hfl : forall z e, float_of_int z = inl e -> e = OverflowError).
  { intros z e. unfold float_of_int.
    destruct (is_inf _); intros H; [injection H as <-; reflexivity | discriminate H]. }
  assert (Has : forall v e c, as_float v = inl e -> fair_failure c e).
  { intros [z|f|] e c H; simpl in H; try discriminate H.
    - rewrite (Hfl z e H). exact I.
    - injection H as <-. exact I. }
  assert (Hop : forall g a b e c, float_op g a b = inl e -> fair_failure c e).
  { intros g a b e c. unfold float_op.
    destruct (as_float a) eqn:Ea; [intros H; injection H as <-; apply (Has a _ c Ea)|].
    destruct (as_float b) eqn:Eb; [intros H; injection H as <-; apply (Has b _ c Eb)|].
    discriminate. }
  intros [-> | [-> | [-> | ->]]] a b e c H.
  - destruct a, b; simpl in H; try discriminate H;
      try (injection H as <-; exact I); apply (Hop _ _ _ e c H).
  - destruct a, b; simpl in H; try discriminate H;
      try (injection H as <-; exact I); apply (Hop _ _ _ e c H).
  - destruct a, b; simpl in H; try discriminate H;
      try (injection H as <-; exact I); apply (Hop _ _ _ e c H).
  - assert (Hdiv : forall a b, (forall e0, as_float a = inl e0 -> fair_failure c e0) ->
               (forall e0, as_float b = inl e0 -> fair_failure c e0) ->
               match as_float a with
               | inl e0 => inl e0
               | inr fa =>
                   match as_float b with
                   | inl e0 => inl e0
                   | inr fb =>
                       if is_zero fb then inl ZeroDivisionError
                       else inr (VFloat (SFdiv prec emax fa fb))
                   end
               end = inl e -> fair_failure c e).
    { intros a' b' Ha Hb.
      destruct (as_float a') as [ea|fa'];
        [intros G; injection G as <-; apply Ha; reflexivity|].
      destruct (as_float b') as [eb|fb'];
        [intros G; injection G as <-; apply Hb; reflexivity|].
      destruct (is_zero fb'); intros G; [injection G as <-; exact I | discriminate G]. }
    destruct a as [x|fa|], b as [y|fb|]; simpl in H;
      try (injection H as <-; exact I).
    + unfold int_truediv in H.
      destruct x, y; simpl in H; try (injection H as <-; exact I);
        try discriminate H;
        match type of H with
        | (if ?t then _ else _) = _ => destruct t
        end; try discriminate H; injection H as <-; exact I.
    + apply (Hdiv (VInt x) (VFloat fb)); [intros; eapply Has; eassumption
                                         | intros; eapply Has; eassumption | exact H].
    + apply (Hdiv (VFloat fa) (VInt y)); [intros; eapply Has; eassumption
                                         | intros; eapply Has; eassumption | exact H].
    + apply (Hdiv (VFloat fa) (VFloat fb)); [intros; eapply Has; eassumption
                                            | intros; eapply Has; eassumption | exact H].
Qed.

Lemma py_eval_failure (x : string) (e : exn) : py_eval x = inl e -> e = SyntaxError.
Proof.
  unfold py_eval.
  repeat match goal with
         | |- context [match ?t with _ => _ end] => destruct t
         end; intros H; inversion H; reflexivity.
Qed.

Lemma opsym_value (fuel : nat) (x : string) (op op' : binop) (c c' : Context.t) :
  (Symb fuel x ;; Parser_ret op) c = Ok op' c' -> op' = op.
Proof.
  unfold Parser_bind, Parser_ret. destruct (Symb fuel x c); try discriminate.
  intros H. injection H as <- _. reflexivity.
Qed.

Lemma or_value {A} (a b : Parser A) (c c' : Context.t) (v : A) :
  Parser_or a b c = Ok v c' -> a c = Ok v c' \/ b c = Ok v c'.
Proof.
  unfold Parser_or. destruct (a c) as [v1 c1|e|]; [auto | | discriminate].
  destruct e; try discriminate. auto.
Qed.

Lemma fair_operator (pop : Parser binop) (pn1 pn2 : Parser pyval) :
  forward pn1 -> forward pop -> fails_fairly pn1 -> fails_fairly pop ->
  fails_fairly pn2 ->
  (forall c op c', pop c = Ok op c' ->
     forall a b e k, op a b = inl e -> fair_failure k e) ->
  fails_fairly (operator pop pn1 pn2).
Proof.
  intros F1 Fo H1 Ho H2 Hop c e Hc H. unfold operator, Parser_bind in H.
  destruct (pn1 c) as [n1 c1|e1|] eqn:E1; try discriminate H;
    [|injection H as <-; apply (H1 c e1 Hc E1)].
  pose proof (F1 c n1 c1 Hc E1) as O1. pose proof (onward_ok c c1 Hc O1) as Hc1.
  apply (fair_failure_onward c c1 e O1).
  destruct (pop c1) as [op c2|e2|] eqn:E2; try discriminate H;
    [|injection H as <-; apply (Ho c1 e2 Hc1 E2)].
  pose proof (Fo c1 op c2 Hc1 E2) as O2. pose proof (onward_ok c1 c2 Hc1 O2) as Hc2.
  apply (fair_failure_onward c1 c2 e O2).
  destruct (pn2 c2) as [n2 c3|e3|] eqn:E3; try discriminate H;
    [|injection H as <-; apply (H2 c2 e3 Hc2 E3)].
  destruct (op n1 n2) as [e4|v] eqn:E4; simpl in H; [|discriminate H].
  injection H as <-. apply (Hop c1 op c2 E2 n1 n2 e4 c2 E4).
Qed.

Lemma fair_opsym (fuel : nat) (x : string) (op : binop) :
  fails_fairly (Symb fuel x ;; Parser_ret op).
Proof.
  apply fair_bind; [apply forward_Symb | apply fair_Symb | intros; apply fair_ret].
Qed.

Lemma fair_addop (fuel : nat) (pn1 pn2 : Parser pyval) :
  forward pn1 -> fails_fairly pn1 -> fails_fairly pn2 ->
  fails_fairly (addop fuel pn1 pn2).
Proof.
  intros F1 H1 H2. apply fair_operator; try assumption.
  - apply (respects_or onward); apply forward_opsym.
  - apply fair_or; apply fair_opsym.
  - intros c op c' H a b e k.
    apply or_value in H as [H|H]; apply opsym_value in H; subst op;
      apply arithmetic_failures; auto.
Qed.

Lemma fair_mulop (fuel : nat) (pn1 pn2 : Parser pyval) :
  forward pn1 -> fails_fairly pn1 -> fails_fairly pn2 ->
  fails_fairly (mulop fuel pn1 pn2).
Proof.
  intros F1 H1 H2. apply fair_operator; try assumption.
  - apply (respects_or onward); apply forward_opsym.
  - apply fair_or; apply fair_opsym.
  - intros c op c' H a b e k.
    apply or_value in H as [H|H]; apply opsym_value in H; subst op;
      apply arithmetic_failures; auto.
Qed.

Lemma fair_digits (fuel : nat) : fails_fairly (digits fuel).
Proof.
  intros c e Hc H. unfold digits in H.
  set (one := Sat (fun z => py_in z "1234567890.")) in H.
  destruct (token fuel (many1 fuel one) c) as [x c1|e1|] eqn:E; try discriminate H.
  - destruct (py_eval (py_join x)) as [e2|v] eqn:Ev; [|discriminate H].
    injection H as <-. rewrite (py_eval_failure _ _ Ev). exact I.
  - injection H as <-. revert E.
    apply (fair_token (many1 fuel one) fuel); [| |exact Hc].
    + apply advances_forward, advances_many1, advances_Sat.
    + apply fair_many1; [apply forward_Sat | apply fair_Sat].
Qed.

Lemma fair_grammar (fuel : nat) :
  fails_fairly (expr fuel) /\ fails_fairly (term fuel) /\ fails_fairly (factor fuel).
Proof.
  induction fuel as [|fuel (He & Ht & Hf)].
  - refine (conj _ (conj _ _)); intros c e _ H; discriminate H.
  - destruct (forward_grammar fuel) as (Fe & Ft & Ff).
    refine (conj _ (conj _ _)); simpl.
    + apply fair_or; [apply fair_addop|]; assumption.
    + apply fair_or; [apply fair_mulop|]; assumption.
    + apply fair_or; [apply fair_digits|].
      apply fair_bind; [apply forward_Symb | apply fair_Symb|]. intros _.
      apply fair_bind; [exact Fe | exact He|]. intros n.
      apply fair_bind; [apply forward_Symb | apply fair_Symb|]. intros _.
      apply fair_ret.
Qed.

(** X11: [parse] never raises [IndexError].  When it raises a
    [ParsingError], the cursor it carries is over the trimmed input, at
    a position between 0 and its length, and the message is ["Error"] if
    that position is the end of the input and ["Unexpected Char: "]
    followed by the character at that position if it is not. *)
Theorem X11_failures_of_parse (fuel : nat) (input : string) (e : exn) :
  parse fuel input = Failed e ->
  e <> IndexError /\
  (forall msg k, e = ParsingError msg k ->
     Context.s k = py_strip input /\
     0 <= Context.pos k <= py_len (py_strip input) /\
     ((Context.pos k = py_len (py_strip input) /\ msg = "Error"%string) \/
      (exists ch, py_getitem (py_strip input) (Context.pos k) = Some ch /\
                  msg = ("Unexpected Char: " ++ String ch EmptyString)%string))).
Proof.
  unfold parse. set (c := Context_init input 0).
  destruct (expr fuel c) as [v c'|e'|] eqn:E; try discriminate.
  intros H. injection H as ->.
  assert (Hc : cursor_ok c) by (apply Context_init_ok; unfold py_len; lia).
  pose proof (proj1 (fair_grammar fuel) c e Hc E) as Hfair.
  split; [intros ->; exact Hfair|].
  intros msg k ->. destruct Hfair as [[Hs Hp] Hm].
  subst c. cbn [Context_init Context.s Context.pos] in Hs, Hp.
  rewrite Hs in Hp. refine (conj Hs (conj Hp _)).
  unfold message_at, Context_at in Hm. rewrite Hs in Hm.
  destruct (Context.pos k >=? py_len (py_strip input)) eqn:G.
  - left. split; [lia | exact Hm].
  - right. destruct (py_getitem (py_strip input) (Context.pos k)) as [ch|];
      [exists ch; auto | contradiction].
Qed.

Lemma X11_witness :
  parse 20 "(1+2" = Failed (ParsingError "Error" (Context.mk "(1+2" 4)) /\
  parse 20 "(1+2]" = Failed (ParsingError "Unexpected Char: ]" (Context.mk "(1+2]" 4)) /\
  ParsingError "Error" (Context.mk "(1+2" 4) <> IndexError.
Proof.
  assert (H : parse 20 "(1+2" = Failed (ParsingError "Error" (Context.mk "(1+2" 4)))
    by (vm_compute; reflexivity).
  split; [exact H|]. split; [vm_compute; reflexivity|].
  exact (proj1 (X11_failures_of_parse 20 _ _ H)).
Defined.

(** ** Where a cursor is: [__repr__] *)

(** The characters that [lines] and the newlines after them take up. *)
Lemma py_split_newline_cons (x : string) :
  exists line lines, py_split_newline x = line :: lines.
Proof.
  induction x as [|a x (h & t & IH)]; simpl; [eauto|].
  destruct (Ascii.eqb a "010"); [eauto|]. rewrite IH. eauto.
Qed.

Lemma span_of_split (x : string) :
  fold_right (fun line acc => py_len line + 1 + acc) 0 (py_split_newline x)
  = py_len x + 1.
Proof.
  induction x as [|a x IH]; [reflexivity|].
  cbn [py_split_newline].
  destruct (Ascii.eqb a "010").
  - cbn [fold_right]. rewrite IH. unfold py_len. simpl String.length. lia.
  - destruct (py_split_newline_cons x) as (h & t & E). rewrite E in *.
    cbn [fold_right] in *. unfold py_len in *. simpl String.length. lia.
Qed.

Lemma span_nonneg (lines : list string) :
  0 <= fold_right (fun line acc => py_len line + 1 + acc) 0 lines.
Proof.
  induction lines as [|h t IH]; simpl; [lia|]. unfold py_len in *. lia.
Qed.

Lemma repr_loop_None (lines : list string) :
  lines <> [] ->
  forall pos line_no cols,
    repr_loop lines pos line_no cols = None <->
    cols + fold_right (fun line acc => py_len line + 1 + acc) 0 lines <= pos.
Proof.
  induction lines as [|h t IH]; intros Hne pos line_no cols; [contradiction|].
  cbn [repr_loop fold_right].
  pose proof (span_nonneg t) as Ht.
  destruct (pos <? cols + py_len h + 1) eqn:E.
  - split; [discriminate | lia].
  - destruct t as [|h' t'].
    + simpl. split; [lia | reflexivity].
    + rewrite (IH ltac:(discriminate)). lia.
Qed.

Lemma Context_repr_None (c : Context.t) :
  Context_repr c = None <-> py_len (Context.s c) < Context.pos c.
Proof.
  unfold Context_repr.
  assert (Hne : py_split_newline (Context.s c) <> []).
  { destruct (py_split_newline_cons (Context.s c)) as (h & t & E).
    rewrite E. discriminate. }
  rewrite (repr_loop_None _ Hne), span_of_split. lia.
Qed.

(** X12: [__repr__] returns nothing exactly when the position is past
    the end of the text (the statement after its loop lacks a [return]);
    for every other position, negative ones too, it returns a string. *)
Theorem X12_repr_None_iff (c : Context.t) :
  (Context_repr c = None <-> py_len (Context.s c) < Context.pos c) /\
  (Context.pos c <= py_len (Context.s c) -> exists r, Context_repr c = Some r).
Proof.
  split; [apply Context_repr_None|]. intros H.
  destruct (Context_repr c) as [r|] eqn:E; [eauto|].
  apply Context_repr_None in E. lia.
Qed.

Lemma X12_witness :
  let c := Context.mk "1+2" (-1) in
  Context.pos c <= py_len (Context.s c) /\ exists r, Context_repr c = Some r.
Proof.
  intros c.
  assert (H : Context.pos c <= py_len (Context.s c)) by (vm_compute; discriminate).
  split; [exact H | exact (proj2 (X12_repr_None_iff c) H)].
Defined.

Lemma string_app_empty (x : string) : (x ++ EmptyString)%string = x.
Proof. induction x as [|a x IH]; simpl; [reflexivity | rewrite IH; reflexivity]. Qed.

Lemma py_len_app (x y : string) : py_len (x ++ y)%string = py_len x + py_len y.
Proof.
  unfold py_len. induction x as [|a x IH]; simpl String.length; [simpl; lia|].
  simpl append. simpl String.length. lia.
Qed.

Lemma split_app_newline (x y : string) :
  py_split_newline (x ++ String "010" y)%string =
  py_split_newline x ++ py_split_newline y.
Proof.
  induction x as [|a x IH]; [reflexivity|].
  simpl append. cbn [py_split_newline].
  destruct (Ascii.eqb a "010"); [rewrite IH; reflexivity|].
  rewrite IH. destruct (py_split_newline_cons x) as (h & t & E). rewrite E.
  reflexivity.
Qed.

Lemma split_one_line (x : string) :
  forallb (fun a => negb (Ascii.eqb a "010")) (list_ascii_of_string x) = true ->
  py_split_newline x = [x].
Proof.
  induction x as [|a x IH]; [reflexivity|]. simpl. intros H.
  apply andb_true_iff in H as [Ha Hx]. apply negb_true_iff in Ha.
  rewrite Ha, (IH Hx). reflexivity.
Qed.

Lemma length_split (x : string) :
  List.length (py_split_newline x) =
  S (List.length (filter (fun a => Ascii.eqb a "010") (list_ascii_of_string x))).
Proof.
  induction x as [|a x IH]; [reflexivity|]. simpl.
  destruct (Ascii.eqb a "010"); [simpl; rewrite IH; reflexivity|].
  destruct (py_split_newline_cons x) as (h & t & E). rewrite E in *. exact IH.
Qed.

Lemma repr_loop_skip (l1 l2 : list string) :
  forall pos line_no cols,
    cols + fold_right (fun line acc => py_len line + 1 + acc) 0 l1 <= pos ->
    repr_loop (l1 ++ l2) pos line_no cols =
    repr_loop l2 pos (line_no + Z.of_nat (List.length l1))
      (cols + fold_right (fun line acc => py_len line + 1 + acc) 0 l1).
Proof.
  induction l1 as [|h t IH]; intros pos line_no cols H.
  - simpl. rewrite !Z.add_0_r. reflexivity.
  - cbn [app repr_loop fold_right List.length] in *.
    pose proof (span_nonneg t) as Ht.
    destruct (pos <? cols + py_len h + 1) eqn:E; [lia|].
    rewrite IH by lia. f_equal; lia.
Qed.

Lemma split_line_then (line post : string) :
  forallb (fun a => negb (Ascii.eqb a "010")) (list_ascii_of_string line) = true ->
  post = EmptyString \/ (exists post', post = String "010" post') ->
  exists lines, py_split_newline (line ++ post)%string = line :: lines.
Proof.
  intros Hline [-> | [post' ->]].
  - rewrite string_app_empty, (split_one_line line Hline). eauto.
  - rewrite split_app_newline, (split_one_line line Hline). simpl. eauto.
Qed.

(** X13: [__repr__] locates the cursor.  For a position on a line of the
    text (at one of its characters, or right after the last one) it
    returns the number of that line, counted from 1 as one more than the
    newlines before it, the column, counted from 1, and the text of the
    line. *)
Theorem X13_repr_locates (pre line post : string) (off : Z) :
  forallb (fun a => negb (Ascii.eqb a "010")) (list_ascii_of_string line) = true ->
  post = EmptyString \/ (exists post', post = String "010" post') ->
  0 <= off <= py_len line ->
  Context_repr (Context.mk (line ++ post) off) =
    Some ("1:" ++ py_str_int (off + 1) ++ ": " ++ line)%string /\
  Context_repr (Context.mk (pre ++ String "010" (line ++ post)) (py_len pre + 1 + off)) =
    Some (py_str_int
            (Z.of_nat (List.length (filter (fun a => Ascii.eqb a "010")
                                      (list_ascii_of_string pre))) + 2)
          ++ ":" ++ py_str_int (off + 1) ++ ": " ++ line)%string.
Proof.
  intros Hline Hpost Hoff.
  destruct (split_line_then line post Hline Hpost) as (lines & E).
  unfold Context_repr. cbn [Context.s Context.pos]. split.
  - rewrite E. cbn [repr_loop].
    replace (off <? 0 + py_len line + 1) with true by (symmetry; apply Z.ltb_lt; lia).
    rewrite Z.sub_0_r. reflexivity.
  - rewrite split_app_newline, E.
    rewrite repr_loop_skip by (rewrite span_of_split; lia).
    rewrite span_of_split, length_split. cbn [repr_loop].
    replace (py_len pre + 1 + off <? 0 + (py_len pre + 1) + py_len line + 1)
      with true by (symmetry; apply Z.ltb_lt; lia).
    do 2 f_equal; [f_equal; lia|]. do 2 f_equal. f_equal. lia.
Qed.

Lemma X13_witness :
  Context_repr (Context.mk (String "1" (String "+" (String "010" "(2*"))) 5) =
  Some "2:3: (2*"%string.
Proof.
  exact (proj2 (X13_repr_locates "1+" "(2*" "" 2 eq_refl (or_introl eq_refl)
                  (conj (proj1 (Z.leb_le 0 2) eq_refl) (proj1 (Z.leb_le 2 3) eq_refl)))).
Defined.

(** ** The loop of [main] *)

Lemma print_never_fails (fuel : nat) (line : string) :
  print_fails (main_round fuel line) = false.
Proof.
  unfold main_round. destruct (String.eqb line ""); [reflexivity|].
  set (c := Context_init line 0).
  assert (Hc : cursor_ok c) by (apply Context_init_ok; unfold py_len; lia).
  assert (Hin : forall k, Context.pos k <= py_len (Context.s k) ->
                  match Context_repr k with None => true | Some _ => false end = false).
  { intros k Hk. destruct (Context_repr k) eqn:E; [reflexivity|].
    apply Context_repr_None in E. lia. }
  destruct (expr fuel c) as [v c'|e|] eqn:E; [| |reflexivity].
  - destruct (negb (String.eqb (Context_rest_str c') "")); [|reflexivity].
    simpl. apply Hin.
    destruct (proj2 (proj2 (proj2 (keeps_grammar fuel))) c v c' Hc E) as [_ Hp]. lia.
  - pose proof (proj1 (fair_grammar fuel) c e Hc E) as Hf.
    destruct e; try reflexivity. simpl. apply Hin.
    destruct Hf as [[_ Hp] _]. lia.
Qed.

Lemma main_round_Uncaught (fuel : nat) (line : string) (e : exn) :
  main_round fuel line = Uncaught e ->
  parse fuel line = Failed e /\ is_ParsingError e = false /\ e <> IndexError.
Proof.
  unfold main_round, parse. destruct (String.eqb line ""); [discriminate|].
  set (c := Context_init line 0).
  assert (Hc : cursor_ok c) by (apply Context_init_ok; unfold py_len; lia).
  destruct (expr fuel c) as [v c'|e'|] eqn:E; try discriminate.
  - destruct (negb (String.eqb (Context_rest_str c') "")); discriminate.
  - pose proof (proj1 (fair_grammar fuel) c e' Hc E) as Hf.
    destruct e'; try discriminate; intros H; injection H as <-;
      (split; [reflexivity|]; split; [reflexivity|]); try discriminate.
    contradiction Hf.
Qed.

(** X14: whatever the line, the cursor that [main] prints, for extra
    input or inside a [ParsingError], has a position that [__repr__] can
    locate: the [print] never trips over a [__repr__] that returns
    nothing. *)
Theorem X14_main_prints_locatable (fuel : nat) (line : string) :
  (forall ctx, main_round fuel line = ExtraInput ctx ->
     exists r, Context_repr ctx = Some r) /\
  (forall msg ctx, main_round fuel line = PrintError msg ctx ->
     exists r, Context_repr ctx = Some r).
Proof.
  pose proof (print_never_fails fuel line) as H.
  split; [intros ctx E | intros msg ctx E]; rewrite E in H; simpl in H;
    (destruct (Context_repr ctx) as [r|]; [eauto | discriminate H]).
Qed.

Lemma X14_witness :
  let ctx := Context.mk "(1+2" 4 in
  main_round 20 "(1+2" = PrintError "Error" ctx /\
  exists r, Context_repr ctx = Some r.
Proof.
  intros ctx.
  assert (H : main_round 20 "(1+2" = PrintError "Error" ctx) by (vm_compute; reflexivity).
  split; [exact H|].
  exact (proj2 (X14_main_prints_locatable 20 "(1+2") "Error"%string ctx H).
Defined.

Lemma main_blank_line (fuel : nat) (l1 l2 : list string) :
  main fuel (l1 ++ EmptyString :: l2) = main fuel (l1 ++ [EmptyString]).
Proof.
  induction l1 as [|line l1 IH]; [reflexivity|].
  cbn [app main]. rewrite IH. reflexivity.
Qed.

Lemma main_step (fuel : nat) (line : string) (stdin : list string) :
  main fuel (line :: stdin) =
  match main_round fuel line with
  | Stop => ([], Exited)
  | Uncaught e => ([], Aborted e)
  | Hang => ([], Stuck)
  | r => let '(out, fin) := main fuel stdin in (r :: out, fin)
  end.
Proof.
  cbn [main]. pose proof (print_never_fails fuel line) as H.
  destruct (main_round fuel line); try reflexivity; rewrite H; reflexivity.
Qed.

(** X15: a run of [main].  Lines after the first empty line are never
    read.  The run ends by [break] only at an empty line, having printed
    once for each line before it.  It is aborted only by an exception of
    [expr] on some line, after one print for each line before: that
    exception is never a [ParsingError] and never an [IndexError], and
    no later line is read. *)
Theorem X15_main_session (fuel : nat) :
  (forall l1 l2, main fuel (l1 ++ EmptyString :: l2) = main fuel (l1 ++ [EmptyString])) /\
  (forall stdin out, main fuel stdin = (out, Exited) ->
     exists pre post,
       stdin = pre ++ EmptyString :: post /\ List.length out = List.length pre /\
       ~ In EmptyString pre) /\
  (forall stdin out e, main fuel stdin = (out, Aborted e) ->
     is_ParsingError e = false /\ e <> IndexError /\
     exists pre line post,
       stdin = pre ++ line :: post /\ List.length out = List.length pre /\
       parse fuel line = Failed e /\
       forall post', main fuel (pre ++ line :: post') = (out, Aborted e)).
Proof.
  refine (conj (main_blank_line fuel) (conj _ _)).
  - induction stdin as [|line stdin IH]; intros out H; [discriminate H|].
    rewrite main_step in H.
    destruct (main_round fuel line) as [|v|k|msg k|e|] eqn:R; try discriminate H.
    + injection H as <-. exists [], stdin. unfold main_round in R.
      destruct (String.eqb_spec line "") as [->|Hne].
      * repeat split; auto.
      * destruct (expr fuel (Context_init line 0)) as [? c'|[]|];
          try discriminate R.
        destruct (negb (String.eqb (Context_rest_str c') "")); discriminate R.
    + destruct (main fuel stdin) as [out' fin] eqn:M. injection H as <- ->.
      destruct (IH out' eq_refl) as (pre & post & -> & Hl & Hn).
      exists (line :: pre), post. simpl. repeat split; [congruence|].
      intros [->|Hin]; [|exact (Hn Hin)]. discriminate R.
    + destruct (main fuel stdin) as [out' fin] eqn:M. injection H as <- ->.
      destruct (IH out' eq_refl) as (pre & post & -> & Hl & Hn).
      exists (line :: pre), post. simpl. repeat split; [congruence|].
      intros [->|Hin]; [|exact (Hn Hin)]. discriminate R.
    + destruct (main fuel stdin) as [out' fin] eqn:M. injection H as <- ->.
      destruct (IH out' eq_refl) as (pre & post & -> & Hl & Hn).
      exists (line :: pre), post. simpl. repeat split; [congruence|].
      intros [->|Hin]; [|exact (Hn Hin)]. discriminate R.
  - induction stdin as [|line stdin IH]; intros out e H; [discriminate H|].
    rewrite main_step in H.
    destruct (main_round fuel line) as [|v|k|msg k|e'|] eqn:R; try discriminate H.
    + destruct (main fuel stdin) as [out' fin] eqn:M. injection H as <- ->.
      destruct (IH out' e eq_refl) as (He & Hi & pre & l & post & -> & Hl & Hp & Hall).
      refine (conj He (conj Hi _)). exists (line :: pre), l, post.
      cbn [app List.length].
      refine (conj eq_refl (conj (f_equal S Hl) (conj Hp _))). intros post'.
      rewrite main_step, R. rewrite (Hall post'). reflexivity.
    + destruct (main fuel stdin) as [out' fin] eqn:M. injection H as <- ->.
      destruct (IH out' e eq_refl) as (He & Hi & pre & l & post & -> & Hl & Hp & Hall).
      refine (conj He (conj Hi _)). exists (line :: pre), l, post.
      cbn [app List.length].
      refine (conj eq_refl (conj (f_equal S Hl) (conj Hp _))). intros post'.
      rewrite main_step, R. rewrite (Hall post'). reflexivity.
    + destruct (main fuel stdin) as [out' fin] eqn:M. injection H as <- ->.
      destruct (IH out' e eq_refl) as (He & Hi & pre & l & post & -> & Hl & Hp & Hall).
      refine (conj He (conj Hi _)). exists (line :: pre), l, post.
      cbn [app List.length].
      refine (conj eq_refl (conj (f_equal S Hl) (conj Hp _))). intros post'.
      rewrite main_step, R. rewrite (Hall post'). reflexivity.
    + injection H as <- <-.
      destruct (main_round_Uncaught fuel line e' R) as (Hp & He & Hi).
      refine (conj He (conj Hi _)). exists [], line, stdin.
      refine (conj eq_refl (conj eq_refl (conj Hp _))).
      intros post'. cbn [app]. rewrite main_step, R. reflexivity.
Qed.

Lemma X15_witness :
  main 30 ["1+2"; "1/0"; "3"]%string = ([PrintValue (VInt 3)], Aborted ZeroDivisionError) /\
  is_ParsingError ZeroDivisionError = false /\ ZeroDivisionError <> IndexError.
Proof.
  assert (H : main 30 ["1+2"; "1/0"; "3"]%string =
              ([PrintValue (VInt 3)], Aborted ZeroDivisionError))
    by (vm_compute; reflexivity).
  split; [exact H|].
  pose proof (proj2 (proj2 (X15_main_session 30)) _ _ _ H) as (He & Hi & _).
  exact (conj He Hi).
Defined.

(** ** White space around the input, and empty input *)

Lemma lstrip_space_app (w x : string) :
  all_space w -> py_lstrip (w ++ x)%string = py_lstrip x.
Proof.
  unfold all_space. induction w as [|a w IH]; [reflexivity|]. simpl. intros H.
  apply andb_true_iff in H as [Ha Hw]. rewrite Ha. apply IH, Hw.
Qed.

Lemma lstrip_all_space (w : string) : all_space w -> py_lstrip w = EmptyString.
Proof.
  intros H. rewrite <- (string_app_empty w). rewrite (lstrip_space_app w "" H).
  reflexivity.
Qed.

Lemma rstrip_all_space (w : string) : all_space w -> py_rstrip w = EmptyString.
Proof.
  unfold all_space. induction w as [|a w IH]; [reflexivity|]. simpl. intros H.
  apply andb_true_iff in H as [Ha Hw]. rewrite (IH Hw), Ha. reflexivity.
Qed.

Lemma rstrip_app_space (x w : string) :
  all_space w -> py_rstrip (x ++ w)%string = py_rstrip x.
Proof.
  intros Hw. induction x as [|a x IH]; [apply rstrip_all_space, Hw|].
  simpl append. rewrite !py_rstrip_eq, IH. reflexivity.
Qed.

Lemma strip_lstrip_app_space (x w : string) :
  all_space w -> py_rstrip (py_lstrip (x ++ w)%string) = py_rstrip (py_lstrip x).
Proof.
  intros Hw. induction x as [|a x IH].
  - simpl append. rewrite (lstrip_all_space w Hw). reflexivity.
  - simpl. destruct (py_isspace a); [exact IH|].
    apply (rstrip_app_space (String a x) w Hw).
Qed.

Lemma py_strip_around (w1 x w2 : string) :
  all_space w1 -> all_space w2 -> py_strip (w1 ++ x ++ w2)%string = py_strip x.
Proof.
  intros H1 H2. unfold py_strip. rewrite (lstrip_space_app w1 _ H1).
  apply strip_lstrip_app_space, H2.
Qed.

(** X16: white space before and after the input does not count: the
    cursor built from the padded text is the cursor built from the text,
    [parse] gives the same result, and so does a round of [main] unless
    the text itself is empty. *)
Theorem X16_padding_ignored (fuel : nat) (w1 x w2 : string) :
  all_space w1 -> all_space w2 ->
  (forall p, Context_init (w1 ++ x ++ w2) p = Context_init x p) /\
  parse fuel (w1 ++ x ++ w2) = parse fuel x /\
  (x <> EmptyString -> main_round fuel (w1 ++ x ++ w2) = main_round fuel x).
Proof.
  intros H1 H2.
  assert (Hinit : forall p, Context_init (w1 ++ x ++ w2) p = Context_init x p).
  { intros p. unfold Context_init. rewrite (py_strip_around w1 x w2 H1 H2). reflexivity. }
  refine (conj Hinit (conj _ _)).
  - unfold parse. rewrite Hinit. reflexivity.
  - intros Hx. unfold main_round. rewrite Hinit.
    destruct (String.eqb_spec x "") as [->|_]; [contradiction Hx; reflexivity|].
    destruct (String.eqb_spec (w1 ++ x ++ w2) "") as [E|_]; [|reflexivity].
    destruct w1; [destruct x; [contradiction Hx; reflexivity | discriminate E]
                 | discriminate E].
Qed.

Lemma X16_witness :
  all_space "  " /\ all_space " " /\ parse 20 "  1+2 " = parse 20 "1+2".
Proof.
  split; [reflexivity|]. split; [reflexivity|].
  exact (proj1 (proj2 (X16_padding_ignored 20 "  " "1+2" " " eq_refl eq_refl))).
Defined.

Lemma digits_at_end (fuel : nat) (c : Context.t) :
  py_len (Context.s c) <= Context.pos c ->
  digits fuel c = Raise (ParsingError "Error" c).
Proof.
  intros H. unfold digits, token, many1, Parser_bind, Sat.
  rewrite (Context_pick_end c H). reflexivity.
Qed.

Lemma expr_at_end (fuel : nat) (c : Context.t) :
  py_len (Context.s c) <= Context.pos c ->
  factor (S fuel) c = Raise (ParsingError "Error" c) /\
  term (S (S fuel)) c = Raise (ParsingError "Error" c) /\
  expr (S (S (S fuel))) c = Raise (ParsingError "Error" c).
Proof.
  intros H.
  assert (Hf : forall n, factor (S n) c = Raise (ParsingError "Error" c)).
  { intros n. simpl. rewrite (Parser_or_retry _ _ c c "Error" (digits_at_end n c H)).
    unfold Parser_bind. rewrite (Symb_at_end n "(" "" c H). reflexivity. }
  assert (Ht : forall n, term (S (S n)) c = Raise (ParsingError "Error" c)).
  { intros n.
    change (term (S (S n)))
      with (Parser_or (mulop (S n) (factor (S n)) (term (S n))) (factor (S n))).
    rewrite (Parser_or_retry _ _ c c "Error"); [apply Hf|].
    unfold mulop, operator, Parser_bind. rewrite Hf. reflexivity. }
  refine (conj (Hf fuel) (conj (Ht fuel) _)).
  change (expr (S (S (S fuel))))
    with (Parser_or (addop (S (S fuel)) (term (S (S fuel))) (expr (S (S fuel))))
            (term (S (S fuel)))).
  rewrite (Parser_or_retry _ _ c c "Error"); [apply Ht|].
  unfold addop, operator, Parser_bind. rewrite Ht. reflexivity.
Qed.

(** X17: nothing to read.  At a cursor at or past the end of its text
    [expr] raises the [ParsingError] of [pick], with that cursor.  So
    does [parse] on every input made of white space only, the empty one
    too; and a line of white space that is not empty does not end the
    loop of [main]: it prints that error. *)
Theorem X17_nothing_to_read (fuel : nat) :
  (3 <= fuel)%nat ->
  (forall c, py_len (Context.s c) <= Context.pos c ->
     expr fuel c = Raise (ParsingError "Error" c)) /\
  (forall w, all_space w ->
     parse fuel w = Failed (ParsingError "Error" (Context.mk "" 0)) /\
     (w <> EmptyString ->
      main_round fuel w = PrintError "Error" (Context.mk "" 0))).
Proof.
  intros Hfuel. destruct fuel as [|[|[|fuel]]]; try lia.
  assert (He : forall c, py_len (Context.s c) <= Context.pos c ->
             expr (S (S (S fuel))) c = Raise (ParsingError "Error" c)).
  { intros c H. apply (expr_at_end fuel c H). }
  split; [exact He|]. intros w Hw.
  assert (Hinit : Context_init w 0 = Context.mk "" 0).
  { unfold Context_init, py_strip. rewrite (lstrip_all_space w Hw). reflexivity. }
  assert (Hrun : expr (S (S (S fuel))) (Context_init w 0) =
                 Raise (ParsingError "Error" (Context.mk "" 0))).
  { rewrite Hinit. apply He. simpl. unfold py_len. simpl. lia. }
  split.
  - unfold parse. rewrite Hrun. reflexivity.
  - intros Hne. unfold main_round.
    destruct (String.eqb_spec w "") as [->|_]; [contradiction Hne; reflexivity|].
    rewrite Hrun. reflexivity.
Qed.

Lemma X17_witness :
  (3 <= 3)%nat /\ all_space "   " /\
  main_round 3 "   " = PrintError "Error" (Context.mk "" 0).
Proof.
  split; [exact (le_n 3)|]. split; [reflexivity|].
  apply (proj2 (X17_nothing_to_read 3 (le_n 3)) "   "%string eq_refl). discriminate.
Defined.

(** ** Number tokens *)

(** X18: on a text made only of the characters that [digits] accepts,
    the whole text is one token: [parse] returns what [eval] returns on
    it, with nothing left over, or fails with the exception of [eval]. *)
Theorem X18_number_text_goes_to_eval (l : list ascii) :
  l <> [] -> forallb (fun z => py_in z "1234567890.") l = true ->
  parses_to (string_of_list_ascii l)
    match py_eval (string_of_list_ascii l) with
    | inr v => Parsed v EmptyString
    | inl e => Failed e
    end.
Proof. intros Hne Hall. apply (parse_number_text l Hne Hall). Qed.

Lemma X18_witness :
  let l := list_ascii_of_string "12.50" in
  l <> [] /\
  parses_to "12.50" (Parsed (VFloat (S754_finite false 7036874417766400 (-49))) EmptyString).
Proof.
  intros l. assert (Hne : l <> []) by discriminate.
  split; [exact Hne | exact (X18_number_text_goes_to_eval l Hne eq_refl)].
Defined.

Lemma span_digits_spec (l : list ascii) :
  forall ds rest, span_digits l = (ds, rest) ->
    l = ds ++ rest /\ forallb is_digit ds = true /\
    match rest with [] => True | b :: _ => is_digit b = false end.
Proof.
  induction l as [|a l IH]; intros ds rest H; simpl in H.
  - injection H as <- <-. auto.
  - destruct (is_digit a) eqn:Ea.
    + destruct (span_digits l) as [ds' rest'] eqn:E. injection H as <- <-.
      destruct (IH ds' rest' eq_refl) as (-> & Hd & Hr).
      simpl. rewrite Ea, Hd. auto.
    + injection H as <- <-. simpl. auto.
Qed.

Lemma no_dot_in_digits (ds : list ascii) :
  forallb is_digit ds = true -> filter (Ascii.eqb ".") ds = [].
Proof.
  induction ds as [|a ds IH]; [reflexivity|]. cbn [forallb filter]. intros H.
  apply andb_true_iff in H as [Ha Hd].
  rewrite Ascii.eqb_sym, (digit_not_dot a Ha). apply IH, Hd.
Qed.

Lemma filter_dot_cons (x : list ascii) :
  filter (Ascii.eqb ".") ("."%char :: x) = "."%char :: filter (Ascii.eqb ".") x.
Proof. reflexivity. Qed.

Lemma py_eval_many_dots (l : list ascii) :
  (2 <= List.length (filter (Ascii.eqb ".") l))%nat ->
  string_of_list_ascii l <> "..."%string ->
  py_eval (string_of_list_ascii l) = inl SyntaxError.
Proof.
  intros Hdots Hne. unfold py_eval.
  destruct (String.eqb_spec (string_of_list_ascii l) "...") as [E|_];
    [contradiction|].
  rewrite list_ascii_of_string_of_list_ascii.
  destruct l as [|a l']; [reflexivity|].
  destruct (Ascii.eqb_spec a ".") as [->|Ha].
  - destruct (span_digits l') as [fp rest] eqn:E.
    destruct (span_digits_spec l' fp rest E) as (-> & Hfp & _).
    destruct fp as [|d fp]; [reflexivity|]. destruct rest; [|reflexivity].
    exfalso. rewrite filter_dot_cons, app_nil_r in Hdots.
    rewrite (no_dot_in_digits _ Hfp) in Hdots. simpl in Hdots. lia.
  - destruct (span_digits (a :: l')) as [ip rest] eqn:E.
    destruct (span_digits_spec _ ip rest E) as (Hl & Hip & _).
    destruct ip as [|d ip]; [reflexivity|].
    destruct rest as [|b rest].
    + exfalso. rewrite Hl, app_nil_r, (no_dot_in_digits _ Hip) in Hdots.
      simpl in Hdots. lia.
    + destruct (Ascii.eqb_spec b ".") as [->|Hb]; [|reflexivity].
      destruct (span_digits rest) as [fp r2] eqn:E2.
      destruct (span_digits_spec rest fp r2 E2) as (-> & Hfp & _).
      destruct r2; [|reflexivity].
      exfalso. rewrite Hl, filter_app, filter_dot_cons, app_nil_r in Hdots.
      rewrite (no_dot_in_digits _ Hip), (no_dot_in_digits _ Hfp) in Hdots.
      simpl in Hdots. lia.
Qed.

Lemma py_eval_leading_zero (ds : list ascii) :
  ds <> [] -> forallb is_digit ds = true -> decinteger_ok ds = false ->
  py_eval (string_of_list_ascii ds) = inl SyntaxError.
Proof.
  intros Hne Hds Hok. unfold py_eval.
  rewrite list_ascii_of_string_of_list_ascii.
  destruct ds as [|a ds]; [contradiction Hne; reflexivity|].
  pose proof Hds as Hall. simpl in Hds. apply andb_true_iff in Hds as [Ha _].
  pose proof (digit_not_dot a Ha) as Hdot.
  change (string_of_list_ascii (a :: ds)) with (String a (string_of_list_ascii ds)).
  cbn [String.eqb]. rewrite Hdot. cbn [andb].
  rewrite (span_digits_all _ Hall), Hok. reflexivity.
Qed.

(** X19: a token that is not a number makes [parse] raise
    [SyntaxError], which [main] does not catch: every text of the
    characters of [digits] with two dots or more, other than ["..."], and
    every text of digits that begins with zeros followed by another
    digit. *)
Theorem X19_malformed_numbers (l : list ascii) :
  forallb (fun z => py_in z "1234567890.") l = true ->
  ((2 <= List.length (filter (Ascii.eqb ".") l))%nat /\
   string_of_list_ascii l <> "..."%string) \/
  (l <> [] /\ forallb is_digit l = true /\ decinteger_ok l = false) ->
  parses_to (string_of_list_ascii l) (Failed SyntaxError) /\
  main_reports (string_of_list_ascii l) (Uncaught SyntaxError).
Proof.
  intros Hall Hbad.
  assert (Hne : l <> []).
  { destruct Hbad as [[Hd _] | [Hn _]]; [|exact Hn].
    destruct l; [simpl in Hd; lia | discriminate]. }
  assert (Hev : py_eval (string_of_list_ascii l) = inl SyntaxError).
  { destruct Hbad as [[Hd Hn] | (_ & Hds & Hok)].
    - apply py_eval_many_dots; assumption.
    - apply py_eval_leading_zero; assumption. }
  pose proof (parse_number_text l Hne Hall) as Hp. cbv zeta in Hp. rewrite Hev in Hp.
  split; [exact Hp|]. destruct Hp as [_ [n Hn]].
  split; [discriminate|]. exists n. intros fuel Hle. specialize (Hn fuel Hle).
  unfold parse in Hn. unfold main_round.
  destruct (String.eqb_spec (string_of_list_ascii l) "") as [E|_].
  - destruct l; [contradiction Hne; reflexivity | discriminate E].
  - destruct (expr fuel (Context_init (string_of_list_ascii l) 0)) as [v c|e|];
      try discriminate Hn. injection Hn as ->. reflexivity.
Qed.

Lemma X19_witness :
  parses_to "1.2.3" (Failed SyntaxError) /\ parses_to "0012" (Failed SyntaxError).
Proof.
  split.
  - refine (proj1 (X19_malformed_numbers (list_ascii_of_string "1.2.3") eq_refl
                     (or_introl (conj (le_n 2) _)))). discriminate.
  - refine (proj1 (X19_malformed_numbers (list_ascii_of_string "0012") eq_refl
                     (or_intror (conj _ (conj eq_refl eq_refl))))). discriminate.
Defined.

(** ** Literals *)

Lemma rest_str_step (c : Context.t) (ch : ascii) :
  cursor_ok c -> Context_pick c = inr ch ->
  Context_rest_str c = String ch (Context_rest_str (Context_next c)).
Proof.
  intros [Hs Hp] Hpick. pose proof (Context_pick_success c ch Hpick) as Hlt.
  rewrite (rest_str_inside c Hp), (Context_next_ok c Hs).
  rewrite (rest_str_inside (Context.mk _ _)) by (simpl; lia). simpl.
  rewrite (substring_from_get _ _ ch (pick_is_get c ch (proj1 Hp) Hpick)).
  do 2 f_equal; lia.
Qed.

Lemma rest_str_end (c : Context.t) :
  cursor_ok c -> Context.pos c = py_len (Context.s c) ->
  Context_rest_str c = EmptyString.
Proof.
  intros [_ Hp] H. rewrite (rest_str_inside c Hp).
  replace (String.length (Context.s c) - Z.to_nat (Context.pos c))%nat with 0%nat
    by (unfold py_len in H; lia).
  apply substring_nothing.
Qed.

Lemma String_loop_prefix (x : string) :
  forall c, cursor_ok c ->
    (prefix x (Context_rest_str c) = true ->
     String_loop x c = Ok tt (Context.mk (Context.s c) (Context.pos c + py_len x))) /\
    (prefix x (Context_rest_str c) = false ->
     exists msg k, String_loop x c = Raise (ParsingError msg k)).
Proof.
  induction x as [|a x IH]; intros c Hc.
  - assert (Hp : prefix "" (Context_rest_str c) = true)
      by (destruct (Context_rest_str c); reflexivity).
    rewrite Hp. split; [|discriminate]. intros _. destruct c as [t p].
    unfold py_len. simpl. unfold Parser_ret. rewrite Z.add_0_r. reflexivity.
  - cbn [String_loop]. unfold Parser_bind, Char, Sat.
    destruct (Z.eq_dec (Context.pos c) (py_len (Context.s c))) as [Hend|Hin].
    + rewrite (rest_str_end c Hc Hend), (Context_pick_end c ltac:(lia)).
      cbn [prefix]. split; [discriminate | eauto].
    + destruct Hc as [Hs Hp].
      destruct (Context_pick_inside c ltac:(lia) ltac:(lia)) as [ch Hpick].
      rewrite (rest_str_step c ch (conj Hs Hp) Hpick), Hpick. cbn [prefix].
      destruct (ascii_dec a ch) as [<-|Hne].
      * rewrite Ascii.eqb_refl.
        assert (Hc' : cursor_ok (Context_next c)).
        { apply cursor_ok_next; [split; assumption | lia]. }
        destruct (IH (Context_next c) Hc') as [Hyes Hno].
        split; intros H; [rewrite (Hyes H) | exact (Hno H)].
        rewrite (Context_next_ok c Hs). simpl. f_equal. f_equal.
        unfold py_len. simpl String.length. lia.
      * replace (Ascii.eqb ch a) with false
          by (symmetry; apply Ascii.eqb_neq; congruence).
        split; [discriminate | eauto].
Qed.

(** X20: [String s] succeeds exactly when the text from the cursor on
    begins with [s]; it then returns [s] and a cursor moved by the
    length of [s].  Otherwise it raises a [ParsingError]. *)
Theorem X20_String_matches_prefix (x : string) (c : Context.t) :
  cursor_ok c ->
  (prefix x (Context_rest_str c) = true ->
   String_ x c = Ok x (Context.mk (Context.s c) (Context.pos c + py_len x))) /\
  (prefix x (Context_rest_str c) = false ->
   exists msg k, String_ x c = Raise (ParsingError msg k)).
Proof.
  intros Hc. destruct (String_loop_prefix x c Hc) as [Hyes Hno].
  unfold String_, Parser_bind. split; intros H.
  - rewrite (Hyes H). reflexivity.
  - destruct (Hno H) as (msg & k & E). rewrite E. eauto.
Qed.

Lemma X20_witness :
  let c := Context_init "1+(2)" 2 in
  cursor_ok c /\ prefix "(2" (Context_rest_str c) = true /\
  String_ "(2" c = Ok "(2"%string (Context.mk "1+(2)" 4).
Proof.
  intros c.
  assert (Hc : cursor_ok c) by (apply Context_init_ok; vm_compute; split; discriminate).
  split; [exact Hc|]. split; [reflexivity|].
  exact (proj1 (X20_String_matches_prefix "(2" c Hc) eq_refl).
Defined.

(** ** Progress and termination *)

(** X21: [parse] and a round of [main] always come to an end: fuel in
    proportion to the length of the trimmed input is enough for an
    answer, and more fuel gives the same answer. *)
Theorem X21_parse_terminates (input : string) (fuel : nat) :
  (3 * String.length (py_strip input) + 5 <= fuel)%nat ->
  parse fuel input <> NoAnswer /\
  main_round fuel input <> Hang /\
  (forall fuel', (fuel <= fuel')%nat -> parse fuel' input = parse fuel input).
Proof.
  intros Hfuel. set (c := Context_init input 0).
  assert (Hc : cursor_ok c) by (apply Context_init_ok; unfold py_len; lia).
  assert (Hr : remaining c = String.length (py_strip input)).
  { unfold remaining, c, py_len. simpl. lia. }
  pose proof (proj2 (proj2 (grammar_answers (remaining c) c Hc (Nat.le_refl _)))
                fuel ltac:(lia)) as Hn.
  refine (conj _ (conj _ _)).
  - unfold parse. fold c. destruct (expr fuel c); try discriminate.
    contradiction Hn; reflexivity.
  - unfold main_round. fold c. destruct (String.eqb input ""); [discriminate|].
    destruct (expr fuel c) as [v c'|e|].
    + destruct (negb (String.eqb (Context_rest_str c') "")); discriminate.
    + destruct e; discriminate.
    + contradiction Hn; reflexivity.
  - intros fuel' Hle. unfold parse. fold c.
    rewrite (expr_mono fuel fuel' c _ Hle eq_refl Hn). reflexivity.
Qed.

Lemma X21_witness :
  (3 * String.length (py_strip " (1+2)*3 ") + 5 <= 26)%nat /\
  parse 26 " (1+2)*3 " <> NoAnswer.
Proof.
  assert (H : (3 * String.length (py_strip " (1+2)*3 ") + 5 <= 26)%nat)
    by (vm_compute; repeat constructor).
  split; [exact H | exact (proj1 (X21_parse_terminates _ 26 H))].
Defined.

(** X22: repetition of a parser that consumes a character each time it
    succeeds, always answers, and raises nothing but [ParsingError],
    comes to an end: with more fuel than there are characters left,
    [Many p] returns a list. *)
Theorem X22_Many_terminates {A} (p : Parser A) :
  advances p ->
  (forall c, cursor_ok c -> p c <> Diverge) ->
  (forall c e, cursor_ok c -> p c = Raise e -> is_ParsingError e = true) ->
  forall fuel c, cursor_ok c -> (remaining c < fuel)%nat ->
    exists xs c', Many fuel p c = Ok xs c'.
Proof. apply Many_terminates. Qed.

Lemma X22_witness :
  let c := Context_init "2024+" 0 in
  cursor_ok c /\ (remaining c < 6)%nat /\
  exists xs c', Many 6 (Sat is_digit) c = Ok xs c'.
Proof.
  intros c.
  assert (Hc : cursor_ok c) by (apply Context_init_ok; vm_compute; split; discriminate).
  assert (Hr : (remaining c < 6)%nat) by (vm_compute; repeat constructor).
  split; [exact Hc|]. split; [exact Hr|].
  exact (X22_Many_terminates (Sat is_digit) (advances_Sat is_digit)
           (fun c0 _ => Sat_no_diverge is_digit c0)
           (Sat_raises_ParsingError is_digit) 6 c Hc Hr).
Defined.

(** X23: every rule of the grammar consumes input: when [digits],
    [factor], [term] or [expr] succeeds, the cursor it hands back is over
    the same text and strictly after the one it was given. *)
Theorem X23_grammar_consumes (fuel : nat) (c c' : Context.t) (v : pyval) :
  cursor_ok c ->
  digits fuel c = Ok v c' \/ factor fuel c = Ok v c' \/
  term fuel c = Ok v c' \/ expr fuel c = Ok v c' ->
  Context.s c' = Context.s c /\
  Context.pos c < Context.pos c' <= py_len (Context.s c').
Proof.
  intros Hc H. destruct (advances_grammar fuel) as (He & Ht & Hf).
  destruct H as [H|[H|[H|H]]].
  - apply (advances_digits fuel c v c' Hc H).
  - apply (Hf c v c' Hc H).
  - apply (Ht c v c' Hc H).
  - apply (He c v c' Hc H).
Qed.

Lemma X23_witness :
  let c := Context_init "2*(3+4)  -1" 0 in
  let c' := Context.mk "2*(3+4)  -1" 9 in
  cursor_ok c /\ term 20 c = Ok (VInt 14) c' /\ Context.pos c < Context.pos c'.
Proof.
  intros c c'.
  assert (Hc : cursor_ok c) by (apply Context_init_ok; vm_compute; split; discriminate).
  assert (H : term 20 c = Ok (VInt 14) c') by (vm_compute; reflexivity).
  split; [exact Hc|]. split; [exact H|].
  exact (proj1 (proj2 (X23_grammar_consumes 20 c c' _ Hc (or_intror (or_intror (or_introl H)))))).
Defined.

Lemma substring_split (x : string) :
  forall n, (n <= String.length x)%nat ->
    x = (substring 0 n x ++ substring n (String.length x - n) x)%string.
Proof.
  induction x as [|a x IH]; intros [|n] H; simpl in *; try lia; try reflexivity.
  - f_equal. specialize (IH 0%nat ltac:(lia)). simpl in IH.
    rewrite Nat.sub_0_r in IH.
    destruct x; simpl in *; [reflexivity|]. exact IH.
  - f_equal. apply IH. lia.
Qed.

Lemma length_substring_0 (x : string) :
  forall n, (n <= String.length x)%nat -> String.length (substring 0 n x) = n.
Proof.
  induction x as [|a x IH]; intros [|n] H; simpl in *; try lia; try reflexivity.
  f_equal. apply IH. lia.
Qed.

(** X24: what [parse] leaves over is the end of the trimmed input, and
    what it consumed before it is not empty. *)
Theorem X24_remainder_is_suffix (fuel : nat) (input : string) (v : pyval)
    (rest : string) :
  parse fuel input = Parsed v rest ->
  exists consumed,
    py_strip input = (consumed ++ rest)%string /\ consumed <> EmptyString.
Proof.
  unfold parse. set (c := Context_init input 0).
  destruct (expr fuel c) as [v' c'| |] eqn:E; try discriminate.
  intros H. injection H as _ <-.
  assert (Hc : cursor_ok c) by (apply Context_init_ok; unfold py_len; lia).
  destruct (proj1 (advances_grammar fuel) c v' c' Hc E) as [Hs Hp].
  change (Context.s c) with (py_strip input) in Hs.
  change (Context.pos c) with 0 in Hp.
  exists (substring 0 (Z.to_nat (Context.pos c')) (Context.s c')). split.
  - rewrite (rest_str_inside c' ltac:(lia)), <- Hs.
    apply substring_split. unfold py_len in Hp. lia.
  - intros Hnil.
    pose proof (length_substring_0 (Context.s c') (Z.to_nat (Context.pos c'))
                  ltac:(unfold py_len in Hp; lia)) as L.
    rewrite Hnil in L. simpl in L. lia.
Qed.

Lemma X24_witness :
  parse 20 " 1+2) " = Parsed (VInt 3) ")" /\
  exists consumed, py_strip " 1+2) " = (consumed ++ ")")%string /\ consumed <> EmptyString.
Proof.
  assert (H : parse 20 " 1+2) " = Parsed (VInt 3) ")") by (vm_compute; reflexivity).
  split; [exact H | exact (X24_remainder_is_suffix 20 _ _ _ H)].
Defined.
